(** * AI interview system: session gateway, conversation engine and
      candidate evaluation engine

    A shallow embedding of the three backend classes of the repository

    - [ChatService]       (backend/src/audio/chat.service.ts),
    - [EvaluationService] (backend/src/audio/evaluation.service.ts),
    - [AudioGateway]      (backend/src/audio/audio.gateway.ts),

    together with the parts of the JavaScript runtime they lean on: strings
    as sequences of UTF-16 code units, the regular expression used to cut a
    JSON block out of a model reply, [JSON.parse], truthiness, exceptions.

    The services keep their state in [Map]s keyed by the socket id; these are
    [gmap]s here.  Calls to the outside world (speech-to-text, chat
    completion, text-to-speech, the clock, the temporary directory) take
    their result from an explicit environment, so that every behaviour of
    the providers, failures included, can be quantified over.  A handler is
    run from its first statement to its last: what other handlers do while
    it awaits a provider is outside this development. *)

From Stdlib Require Import ZArith NArith List Ascii String Bool Lia.
From Stdlib Require Import DecimalString DecimalN DecimalPos.
From stdpp Require Import gmap list.

Open Scope N_scope.

(* ================================================================== *)
(** * JavaScript strings *)
(* ================================================================== *)

(** A JavaScript string is a sequence of 16-bit code units. *)
Abbreviation jsstring := (list N) (only parsing).

(** Source literals are written in this file as UTF-8 text; [utf16] turns
    the bytes of such a literal into the code units the program sees. *)
Fixpoint utf16_of_utf8 (bs : list N) : jsstring :=
  match bs with
  | [] => []
  | b0 :: r0 =>
    if b0 <? 128 then b0 :: utf16_of_utf8 r0
    else if b0 <? 224 then
      match r0 with
      | b1 :: r1 => ((b0 - 192) * 64 + (b1 - 128)) :: utf16_of_utf8 r1
      | [] => []
      end
    else if b0 <? 240 then
      match r0 with
      | b1 :: b2 :: r2 =>
        ((b0 - 224) * 4096 + (b1 - 128) * 64 + (b2 - 128)) :: utf16_of_utf8 r2
      | _ => []
      end
    else
      match r0 with
      | b1 :: b2 :: b3 :: r3 =>
        let cp := (b0 - 240) * 262144 + (b1 - 128) * 4096
                  + (b2 - 128) * 64 + (b3 - 128) in
        (55296 + (cp - 65536) / 1024) :: (56320 + (cp - 65536) mod 1024)
          :: utf16_of_utf8 r3
      | _ => []
      end
  end.

Definition utf16 (s : string) : jsstring :=
  utf16_of_utf8 (List.map N_of_ascii (list_ascii_of_string s)).

(** Text that contains double quotes is written with an apostrophe in
    their place. *)
Definition quoted (s : string) : jsstring :=
  List.map (fun c => if c =? 39 then 34 else c) (utf16 s).

(** Decimal rendering of a non-negative integer, as [String(n)] and
    template literals produce it. *)
Definition decimal (n : N) : jsstring :=
  List.map N_of_ascii
    (list_ascii_of_string (NilZero.string_of_uint (N.to_uint n))).

(** [Array.prototype.join]. *)
Fixpoint join (sep : jsstring) (parts : list jsstring) : jsstring :=
  match parts with
  | [] => []
  | [p] => p
  | p :: ps => p ++ sep ++ join sep ps
  end.

(* ================================================================== *)
(** * Exceptions *)
(* ================================================================== *)

(** An [Error] object; the program only ever reads its [message]. *)
Record JsError := mkError { message : jsstring }.

(** The completion of a synchronous computation, or the settlement of a
    promise that has been awaited. *)
Inductive Outcome (A : Type) : Type :=
| Returned (a : A)
| Thrown (e : JsError).
Arguments Returned {A} a.
Arguments Thrown {A} e.

(** [try { body } catch (error) { handler }] on pure code. *)
Definition try_catch {A} (body : Outcome A) (handler : JsError -> Outcome A)
  : Outcome A :=
  match body with
  | Returned a => Returned a
  | Thrown e => handler e
  end.

(* ================================================================== *)
(** * Regular expressions *)
(* ================================================================== *)

(** The fragment of regular expressions the program uses: a sequence of
    atoms, each a character set that is matched once or under a greedy
    star. *)
Inductive atom :=
| One (cls : N -> bool)
| Many (cls : N -> bool).

Abbreviation regex := (list atom) (only parsing).

(** [\s]: WhiteSpace and LineTerminator code units. *)
Definition class_s (c : N) : bool :=
  (c =? 9) || (c =? 10) || (c =? 11) || (c =? 12) || (c =? 13) || (c =? 32)
  || (c =? 160) || (c =? 5760) || ((8192 <=? c) && (c <=? 8202))
  || (c =? 8232) || (c =? 8233) || (c =? 8239) || (c =? 8287)
  || (c =? 12288) || (c =? 65279).

(** [\S]. *)
Definition class_S (c : N) : bool := negb (class_s c).

(** A greedy star: take one more unit of the set when that leads to a
    match, give it back otherwise. *)
Fixpoint match_many (cls : N -> bool) (continue : jsstring -> option jsstring)
    (s : jsstring) : option jsstring :=
  match s with
  | c :: s' =>
    if cls c then
      match match_many cls continue s' with
      | Some m => Some (c :: m)
      | None => continue s
      end
    else continue s
  | [] => continue s
  end.

(** Match at the start of [s]; the result is the matched text. *)
Fixpoint match_here (r : regex) (s : jsstring) : option jsstring :=
  match r with
  | [] => Some []
  | One cls :: r' =>
    match s with
    | c :: s' =>
      if cls c then
        match match_here r' s' with
        | Some m => Some (c :: m)
        | None => None
        end
      else None
    | [] => None
    end
  | Many cls :: r' => match_many cls (match_here r') s
  end.

(** [s.match(r)] for a regular expression without flags: the leftmost
    match, [None] for [null]; the result stands for element 0 of the
    match array. *)
Fixpoint string_match (r : regex) (s : jsstring) : option jsstring :=
  match match_here r s with
  | Some m => Some m
  | None =>
    match s with
    | [] => None
    | _ :: s' => string_match r s'
    end
  end.

Definition LBRACE : N := 123.
Definition RBRACE : N := 125.

(** The pattern of [parseEvaluation]: an opening brace, any run of code
    units (the set [\s\S]), a closing brace. *)
Definition json_block_regex : regex :=
  [ One (N.eqb LBRACE);
    Many (fun c => class_s c || class_S c);
    One (N.eqb RBRACE) ].

(* ================================================================== *)
(** * JavaScript values and JSON *)
(* ================================================================== *)

(** A number read from a JSON text, kept as the decimal it was written
    as: [(-1)^negative * digits * 10^exp10].  The Number it denotes is the
    binary64 value nearest to that decimal. *)
Record JsNumber := mkNumber { negative : bool; digits : N; exp10 : Z }.

Definition number_of_N (n : N) : JsNumber := mkNumber false n 0.

(** The values [JSON.parse] builds, and object literals of the same
    shape.  An object is the list of its properties in source order; when
    a name occurs twice the last occurrence is the property's value. *)
#[warnings="-register-all"]
Inductive JsValue :=
| JNull
| JBool (b : bool)
| JNumber (n : JsNumber)
| JString (s : jsstring)
| JArray (items : list JsValue)
| JObject (props : list (jsstring * JsValue)).

(** The magnitude [digits * 10^exp10] compared with the dyadic rational
    [p / 2^k]. *)
Definition compare_dyadic (n : JsNumber) (p k : Z) : comparison :=
  (if 0 <=? exp10 n
   then Z.of_N (digits n) * 10 ^ exp10 n * 2 ^ k ?= p
   else Z.of_N (digits n) * 2 ^ k ?= p * 10 ^ (- exp10 n))%Z.

(** The decimal rounds to the Number zero exactly when its magnitude is at
    most [2^-1075], half of the least positive binary64 value (the tie goes
    to zero, whose significand is even). *)
Definition number_is_zero (n : JsNumber) : bool :=
  match compare_dyadic n 1 1075 with
  | Gt => false
  | _ => true
  end.

(** The Number lies in [1, 10]: the decimal is not negative and rounds
    neither below 1 nor above 10, that is, it lies between the midpoints
    [1 - 2^-54] and [10 + 2^-50] (both ties go to the bound, whose
    significand is even). *)
Definition number_in_1_10 (n : JsNumber) : bool :=
  negb (negative n)
  && match compare_dyadic n (2 ^ 54 - 1) 54 with Lt => false | _ => true end
  && match compare_dyadic n (10 * 2 ^ 50 + 1) 50 with Gt => false | _ => true end.

Fixpoint lookup_last (key : jsstring) (props : list (jsstring * JsValue))
  : option JsValue :=
  match props with
  | [] => None
  | (k, v) :: rest =>
    match lookup_last key rest with
    | Some v' => Some v'
    | None => if decide (k = key) then Some v else None
    end
  end.

(** [v.key] for a name that no prototype defines; [None] is [undefined].
    Only objects built by [JSON.parse] or by a literal carry such a name. *)
Definition get_property (v : JsValue) (key : jsstring) : option JsValue :=
  match v with
  | JObject props => lookup_last key props
  | _ => None
  end.

(** ToBoolean. *)
Definition truthy (v : option JsValue) : bool :=
  match v with
  | None => false
  | Some JNull => false
  | Some (JBool b) => b
  | Some (JNumber n) => negb (number_is_zero n)
  | Some (JString s) => negb (Nat.eqb (length s) 0)
  | Some (JArray _) => true
  | Some (JObject _) => true
  end.

Fixpoint indexed (i : N) (items : list JsValue) : list (jsstring * JsValue) :=
  match items with
  | [] => []
  | v :: rest => (decimal i, v) :: indexed (N.succ i) rest
  end.

(** The own enumerable properties copied by an object spread [{...v}]. *)
Definition own_properties (v : JsValue) : list (jsstring * JsValue) :=
  match v with
  | JObject props => props
  | JArray items => indexed 0 items
  | JString s => indexed 0 (List.map (fun c => JString [c]) s)
  | _ => []
  end.

(** ** [JSON.parse] *)

Inductive parse_result (A : Type) : Type :=
| Parsed (a : A) (rest : jsstring)
| SyntaxError
| OutOfFuel.
Arguments Parsed {A} a rest.
Arguments SyntaxError {A}.
Arguments OutOfFuel {A}.

Definition is_json_space (c : N) : bool :=
  (c =? 9) || (c =? 10) || (c =? 13) || (c =? 32).

Fixpoint skip_ws (s : jsstring) : jsstring :=
  match s with
  | c :: s' => if is_json_space c then skip_ws s' else s
  | [] => []
  end.

Definition is_digit (c : N) : bool := (48 <=? c) && (c <=? 57).

(** The longest run of decimal digits at the start of [s], as digit
    values, and what follows it. *)
Fixpoint take_digits (s : jsstring) : list N * jsstring :=
  match s with
  | c :: s' =>
    if is_digit c then
      let (ds, r) := take_digits s' in (c - 48 :: ds, r)
    else ([], s)
  | [] => ([], [])
  end.

Definition digits_value (ds : list N) : N :=
  fold_left (fun acc d => acc * 10 + d) ds 0.

Definition hex_value (c : N) : option N :=
  if is_digit c then Some (c - 48)
  else if (65 <=? c) && (c <=? 70) then Some (c - 55)
  else if (97 <=? c) && (c <=? 102) then Some (c - 87)
  else None.

Definition hex4 (a b c d : N) : option N :=
  match hex_value a, hex_value b, hex_value c, hex_value d with
  | Some x, Some y, Some z, Some w => Some (((x * 16 + y) * 16 + z) * 16 + w)
  | _, _, _, _ => None
  end.

(** The single-character escapes of a JSON string. *)
Definition simple_escape (c : N) : option N :=
  if (c =? 34) || (c =? 92) || (c =? 47) then Some c
  else if c =? 98 then Some 8
  else if c =? 102 then Some 12
  else if c =? 110 then Some 10
  else if c =? 114 then Some 13
  else if c =? 116 then Some 9
  else None.

(** The characters of a JSON string after its opening quote, up to and
    including the closing quote. *)
Fixpoint parse_string_chars (s : jsstring) : option (jsstring * jsstring) :=
  match s with
  | [] => None
  | c :: r =>
    if c =? 34 then Some ([], r)
    else if c =? 92 then
      match r with
      | [] => None
      | e :: r1 =>
        if e =? 117 then
          match r1 with
          | h1 :: h2 :: h3 :: h4 :: r2 =>
            match hex4 h1 h2 h3 h4 with
            | Some u =>
              match parse_string_chars r2 with
              | Some (str, rest) => Some (u :: str, rest)
              | None => None
              end
            | None => None
            end
          | _ => None
          end
        else
          match simple_escape e with
          | Some u =>
            match parse_string_chars r1 with
            | Some (str, rest) => Some (u :: str, rest)
            | None => None
            end
          | None => None
          end
      end
    else if c <? 32 then None
    else
      match parse_string_chars r with
      | Some (str, rest) => Some (c :: str, rest)
      | None => None
      end
  end.

(** The integer part of a number: a single [0], or a run of digits that
    does not start with [0]. *)
Definition parse_int_part (s : jsstring) : option (list N * jsstring) :=
  match s with
  | c :: s' =>
    if c =? 48 then Some ([0], s')
    else if is_digit c then Some (take_digits s)
    else None
  | [] => None
  end.

Definition parse_frac_part (s : jsstring) : option (list N * jsstring) :=
  match s with
  | c :: s' =>
    if c =? 46 then
      match take_digits s' with
      | ([], _) => None
      | (ds, r) => Some (ds, r)
      end
    else Some ([], s)
  | [] => Some ([], s)
  end.

Definition parse_exp_digits (s : jsstring) : option (N * jsstring) :=
  match take_digits s with
  | ([], _) => None
  | (ds, r) => Some (digits_value ds, r)
  end.

Definition parse_exp_part (s : jsstring) : option (Z * jsstring) :=
  match s with
  | c :: s' =>
    if (c =? 101) || (c =? 69) then
      match s' with
      | sg :: s'' =>
        if sg =? 45 then
          match parse_exp_digits s'' with
          | Some (e, r) => Some ((- Z.of_N e)%Z, r)
          | None => None
          end
        else if sg =? 43 then
          match parse_exp_digits s'' with
          | Some (e, r) => Some (Z.of_N e, r)
          | None => None
          end
        else
          match parse_exp_digits s' with
          | Some (e, r) => Some (Z.of_N e, r)
          | None => None
          end
      | [] => None
      end
    else Some (0%Z, s)
  | [] => Some (0%Z, s)
  end.

Definition parse_unsigned (neg : bool) (s : jsstring)
  : option (JsNumber * jsstring) :=
  match parse_int_part s with
  | Some (ip, r1) =>
    match parse_frac_part r1 with
    | Some (fp, r2) =>
      match parse_exp_part r2 with
      | Some (e, r3) =>
        Some (mkNumber neg (digits_value (ip ++ fp))
                (e - Z.of_nat (length fp))%Z, r3)
      | None => None
      end
    | None => None
    end
  | None => None
  end.

Definition parse_number (s : jsstring) : option (JsNumber * jsstring) :=
  match s with
  | c :: s' => if c =? 45 then parse_unsigned true s' else parse_unsigned false s
  | [] => None
  end.

(** [s] starts with the code units of [word]. *)
Fixpoint strip_prefix (word s : jsstring) : option jsstring :=
  match word with
  | [] => Some s
  | w :: word' =>
    match s with
    | c :: s' => if c =? w then strip_prefix word' s' else None
    | [] => None
    end
  end.

Definition of_option {A} (o : option (A * jsstring)) : parse_result A :=
  match o with
  | Some (a, r) => Parsed a r
  | None => SyntaxError
  end.

(** Recursive descent over the JSON grammar.  Every level of nesting and
    every element of a container takes one unit of [fuel]. *)
Fixpoint parse_value (fuel : nat) (s : jsstring) : parse_result JsValue :=
  match fuel with
  | O => OutOfFuel
  | S fuel' =>
    match skip_ws s with
    | [] => SyntaxError
    | c :: r =>
      if c =? LBRACE then
        match skip_ws r with
        | [] => SyntaxError
        | c' :: r' =>
          if c' =? RBRACE then Parsed (JObject []) r'
          else parse_members fuel' (c' :: r') []
        end
      else if c =? 91 then
        match skip_ws r with
        | [] => SyntaxError
        | c' :: r' =>
          if c' =? 93 then Parsed (JArray []) r'
          else parse_elements fuel' (c' :: r') []
        end
      else if c =? 34 then
        match parse_string_chars r with
        | Some (str, r') => Parsed (JString str) r'
        | None => SyntaxError
        end
      else if c =? 116 then
        of_option (option_map (pair (JBool true)) (strip_prefix [114; 117; 101] r))
      else if c =? 102 then
        of_option (option_map (pair (JBool false))
                     (strip_prefix [97; 108; 115; 101] r))
      else if c =? 110 then
        of_option (option_map (pair JNull) (strip_prefix [117; 108; 108] r))
      else
        match parse_number (c :: r) with
        | Some (n, r') => Parsed (JNumber n) r'
        | None => SyntaxError
        end
    end
  end

with parse_elements (fuel : nat) (s : jsstring) (acc : list JsValue)
  : parse_result JsValue :=
  match fuel with
  | O => OutOfFuel
  | S fuel' =>
    match parse_value fuel' s with
    | Parsed v r =>
      match skip_ws r with
      | [] => SyntaxError
      | c :: r' =>
        if c =? 44 then parse_elements fuel' r' (v :: acc)
        else if c =? 93 then Parsed (JArray (rev (v :: acc))) r'
        else SyntaxError
      end
    | SyntaxError => SyntaxError
    | OutOfFuel => OutOfFuel
    end
  end

with parse_members (fuel : nat) (s : jsstring)
    (acc : list (jsstring * JsValue)) : parse_result JsValue :=
  match fuel with
  | O => OutOfFuel
  | S fuel' =>
    match skip_ws s with
    | [] => SyntaxError
    | c :: r =>
      if c =? 34 then
        match parse_string_chars r with
        | None => SyntaxError
        | Some (key, r1) =>
          match skip_ws r1 with
          | [] => SyntaxError
          | c1 :: r2 =>
            if c1 =? 58 then
              match parse_value fuel' r2 with
              | Parsed v r3 =>
                match skip_ws r3 with
                | [] => SyntaxError
                | c3 :: r4 =>
                  if c3 =? 44 then parse_members fuel' r4 ((key, v) :: acc)
                  else if c3 =? RBRACE
                  then Parsed (JObject (rev ((key, v) :: acc))) r4
                  else SyntaxError
                end
              | SyntaxError => SyntaxError
              | OutOfFuel => OutOfFuel
              end
            else SyntaxError
          end
        end
      else SyntaxError
    end
  end.

Definition json_fuel (text : jsstring) : nat := 2 * length text + 1.

(** The message of the real [SyntaxError] depends on the text; the
    program catches the error and only logs it. *)
Definition syntax_error : JsError :=
  mkError (utf16 "Unexpected token in JSON").

(** [JSON.parse(text)]: one value between optional white space, or a
    thrown [SyntaxError]. *)
Definition JSON_parse (text : jsstring) : Outcome JsValue :=
  match parse_value (json_fuel text) text with
  | Parsed v rest =>
    match skip_ws rest with
    | [] => Returned v
    | _ :: _ => Thrown syntax_error
    end
  | SyntaxError => Thrown syntax_error
  | OutOfFuel => Thrown syntax_error
  end.


(* ================================================================== *)
(** * Buffers *)
(* ================================================================== *)

(** A [Buffer] is a sequence of bytes. *)
Abbreviation Buffer := (list N) (only parsing).

Definition base64_digit (i : N) : N :=
  if i <? 26 then 65 + i
  else if i <? 52 then 97 + (i - 26)
  else if i <? 62 then 48 + (i - 52)
  else if i =? 62 then 43
  else 47.

(** [buffer.toString('base64')]. *)
Fixpoint base64 (bytes : Buffer) : jsstring :=
  match bytes with
  | [] => []
  | [a] => [base64_digit (a / 4); base64_digit ((a mod 4) * 16); 61; 61]
  | [a; b] =>
    [base64_digit (a / 4); base64_digit ((a mod 4) * 16 + b / 16);
     base64_digit ((b mod 16) * 4); 61]
  | a :: b :: c :: rest =>
    base64_digit (a / 4) :: base64_digit ((a mod 4) * 16 + b / 16)
      :: base64_digit ((b mod 16) * 4 + c / 64) :: base64_digit (c mod 64)
      :: base64 rest
  end.

(* ================================================================== *)
(** * The process state and the outside world *)
(* ================================================================== *)

Inductive Role := user | assistant.

(** An entry of a conversation history, [{ role, content }]. *)
Record Message := mkMessage { role : Role; content : jsstring }.

(** A content block of a chat-completion response: the program reads the
    text of a block of type ['text'] and nothing of any other block. *)
Inductive ContentBlock :=
| TextBlock (text : jsstring)
| OtherBlock.

(** The requests sent to the providers. *)
Inductive ProviderCall :=
| messages_create (model : jsstring) (max_tokens : N)
    (system : option jsstring) (messages : list Message)
| transcriptions_create (file model language : jsstring)
| speech_create (model voice input : jsstring).

(** The events sent to a client. *)
Inductive OutEvent :=
| transcription (text timestamp : jsstring)
| ai_response (response timestamp : jsstring)
| ai_audio (audio : jsstring)
| processing_error (description error : jsstring)
| evaluation_complete (evaluation : JsValue)
| evaluation_error (error : jsstring)
| evaluation_result (evaluation : JsValue).

(** The state of the process: the three [Map]s of the services, keyed by
    socket id, the temporary directory ([None] while it does not exist), and
    two logs, oldest entry first: the events emitted, each with the socket
    it went to, and the provider requests issued. *)
Record World := mkWorld {
  audioBuffers : gmap (list N) (list (list N));
  conversationHistory : gmap (list N) (list Message);
  evaluations : gmap (list N) JsValue;
  tempDir : option (gmap (list N) (list N));
  emitted : list (list N * OutEvent);
  providerCalls : list ProviderCall
}.

(** What the outside world answers during one run of a handler: the clock
    readings and the settlement of each call that can fail. *)
Record Env := mkEnv {
  file_stamp : N;
  transcription_time : jsstring;
  response_time : jsstring;
  evaluated_at : jsstring;
  mkdir_result : Outcome unit;
  write_result : Outcome unit;
  unlink_result : Outcome unit;
  transcription_result : Outcome jsstring;
  completion_result : Outcome (list ContentBlock);
  speech_result : Outcome (list N)
}.

(** ** Computations on the process state that may throw *)

Definition M (A : Type) : Type := World -> Outcome A * World.

Definition ret {A} (a : A) : M A := fun w => (Returned a, w).

Definition throw {A} (e : JsError) : M A := fun w => (Thrown e, w).

Definition bind {A B} (m : M A) (k : A -> M B) : M B :=
  fun w =>
    match m w with
    | (Returned a, w') => k a w'
    | (Thrown e, w') => (Thrown e, w')
    end.

(** [try { body } catch (error) { handler }]: what [body] did to the state
    before it threw stays done. *)
Definition try_ {A} (body : M A) (handler : JsError -> M A) : M A :=
  fun w =>
    match body w with
    | (Returned a, w') => (Returned a, w')
    | (Thrown e, w') => handler e w'
    end.

Definition gets {A} (f : World -> A) : M A := fun w => (Returned (f w), w).

Definition modify (f : World -> World) : M unit :=
  fun w => (Returned tt, f w).

(** An awaited promise or a call that may throw, settled as given. *)
Definition settle {A} (o : Outcome A) : M A := fun w => (o, w).

Declare Scope js_scope.
Delimit Scope js_scope with js.
Notation "x <- m ;; k" := (bind m (fun x => k))
  (at level 100, m at next level, right associativity) : js_scope.
Notation "m ;; k" := (bind m (fun _ => k))
  (at level 100, right associativity) : js_scope.
Open Scope js_scope.

Definition set_audioBuffers (f : gmap (list N) (list (list N)) ->
                                 gmap (list N) (list (list N))) (w : World) :=
  mkWorld (f (audioBuffers w)) (conversationHistory w) (evaluations w)
          (tempDir w) (emitted w) (providerCalls w).

Definition set_conversationHistory
    (f : gmap (list N) (list Message) -> gmap (list N) (list Message))
    (w : World) :=
  mkWorld (audioBuffers w) (f (conversationHistory w)) (evaluations w)
          (tempDir w) (emitted w) (providerCalls w).

Definition set_evaluations
    (f : gmap (list N) JsValue -> gmap (list N) JsValue) (w : World) :=
  mkWorld (audioBuffers w) (conversationHistory w) (f (evaluations w))
          (tempDir w) (emitted w) (providerCalls w).

Definition set_tempDir
    (f : option (gmap (list N) (list N)) -> option (gmap (list N) (list N)))
    (w : World) :=
  mkWorld (audioBuffers w) (conversationHistory w) (evaluations w)
          (f (tempDir w)) (emitted w) (providerCalls w).

Definition set_emitted
    (f : list (list N * OutEvent) -> list (list N * OutEvent)) (w : World) :=
  mkWorld (audioBuffers w) (conversationHistory w) (evaluations w)
          (tempDir w) (f (emitted w)) (providerCalls w).

Definition set_providerCalls
    (f : list ProviderCall -> list ProviderCall) (w : World) :=
  mkWorld (audioBuffers w) (conversationHistory w) (evaluations w)
          (tempDir w) (emitted w) (f (providerCalls w)).

(** [client.emit(event, payload)]. *)
Definition emit (client : jsstring) (ev : OutEvent) : M unit :=
  modify (set_emitted (fun log => log ++ [(client, ev)])).

(** A provider request: it is issued once, and the promise settles as the
    outside world decides. *)
Definition call_provider {A} (request : ProviderCall) (result : Outcome A)
  : M A :=
  modify (set_providerCalls (fun log => log ++ [request])) ;;
  settle result.

(* ================================================================== *)
(** * ChatService *)
(* ================================================================== *)

Module ChatService.

Definition getSystemPrompt : jsstring := utf16
"あなたは採用面接官です。

【面接のルール】
- 1回の応答で質問は1つだけ
- 質問は簡潔に（1-2文）
- 候補者の経験・スキル・人柄を評価する
- フレンドリーだがプロフェッショナルに

悪い例:「素晴らしいですね！これまでの経験から培われた主体性と問題解決力は...（長文）」
良い例:「個人事業で最も苦労したことは何ですか？」".

Definition MODEL : jsstring := utf16 "claude-3-haiku-20240307".

Definition undefined_content : JsError :=
  mkError (utf16 "Cannot read properties of undefined (reading 'type')").

(** [response.content[0].type === 'text' ? response.content[0].text : ''];
    reading [type] of a missing first block throws a [TypeError]. *)
Definition first_text (blocks : list ContentBlock) : M jsstring :=
  match blocks with
  | [] => throw undefined_content
  | TextBlock t :: _ => ret t
  | OtherBlock :: _ => ret []
  end.

(** [if (!this.conversationHistory.has(clientId))
       this.conversationHistory.set(clientId, [])]. *)
Definition ensure_history (clientId : jsstring) : M unit :=
  modify (set_conversationHistory (fun h =>
    match h !! clientId with
    | Some _ => h
    | None => <[clientId := []]> h
    end)).

(** [history.push(m)] on the array the map holds for [clientId]. *)
Definition push (clientId : jsstring) (m : Message) : M unit :=
  modify (set_conversationHistory (alter (fun l => l ++ [m]) clientId)).

Definition the_history (clientId : jsstring) : M (list Message) :=
  gets (fun w => default [] (conversationHistory w !! clientId)).

Definition chat (completion : Outcome (list ContentBlock))
    (clientId userMessage : jsstring) : M jsstring :=
  ensure_history clientId ;;
  push clientId (mkMessage user userMessage) ;;
  try_
    (history <- the_history clientId ;;
     response <- call_provider
       (messages_create MODEL 500 (Some getSystemPrompt) history) completion ;;
     assistantMessage <- first_text response ;;
     push clientId (mkMessage assistant assistantMessage) ;;
     ret assistantMessage)
    (fun error => throw error).

Definition OPENING : jsstring := utf16 "面接を開始してください。".

Definition startInterview (completion : Outcome (list ContentBlock))
    (clientId : jsstring) : M jsstring :=
  ensure_history clientId ;;
  try_
    (response <- call_provider
       (messages_create MODEL 500 (Some getSystemPrompt)
          [mkMessage user OPENING]) completion ;;
     assistantMessage <- first_text response ;;
     push clientId (mkMessage user OPENING) ;;
     push clientId (mkMessage assistant assistantMessage) ;;
     ret assistantMessage)
    (fun error => throw error).

Definition clearHistory (clientId : jsstring) : M unit :=
  modify (set_conversationHistory (delete clientId)).

(** [this.conversationHistory.get(clientId) || []]: an array is truthy
    even when empty, so only a missing entry gives the fresh [[]]. *)
Definition getHistory (w : World) (clientId : jsstring) : list Message :=
  match conversationHistory w !! clientId with
  | Some h => h
  | None => []
  end.

End ChatService.

(* ================================================================== *)
(** * EvaluationService *)
(* ================================================================== *)

(** [v.name] where [v] is the value of an earlier property read: reading
    a property of [undefined] or [null] throws a [TypeError]. *)
Definition member_access (v : option JsValue) : Outcome unit :=
  match v with
  | None | Some JNull =>
    Thrown (mkError (utf16 "Cannot read properties of undefined"))
  | Some _ => Returned tt
  end.

Module EvaluationService.

Definition PROMPT_HEAD : jsstring := utf16
"
以下は面接の会話履歴です。この候補者を以下の5項目で評価してください。

【会話履歴】
".

Definition PROMPT_TAIL : jsstring := quoted
"

【評価項目】（各1-10点）
1. コミュニケーション能力: 質問への的確な回答、論理的な説明、聞き取りやすさ
2. 技術スキル・専門知識: 業界知識の深さ、具体例の豊富さ
3. 熱意・モチベーション: 志望動機の明確さ、キャリアビジョン
4. 問題解決能力: 論理的思考、状況対応力
5. 総合評価: 全体的な印象

【評価結果の形式】
必ず以下のJSON形式で出力してください。他の文章は不要です。

{
  'scores': {
    'communication': 8,
    'technical': 7,
    'motivation': 9,
    'problemSolving': 6,
    'overall': 7.5
  },
  'comments': {
    'strengths': ['明確なキャリアビジョンがある', '具体的な経験を話せる'],
    'improvements': ['技術的な深掘りが浅い'],
    'summary': 'コミュニケーション能力が高く、熱意も感じられる。技術面での経験をもう少し具体的に話せるとより良い。'
  }
}
".

(** One line of the transcript: the speaker's label, a colon, the text. *)
Definition render (msg : Message) : jsstring :=
  (match role msg with
   | assistant => utf16 "面接官"
   | user => utf16 "候補者"
   end) ++ utf16 ": " ++ content msg.

Definition conversationText (conversationHistory : list Message) : jsstring :=
  join [10; 10] (List.map render conversationHistory).

Definition generateEvaluation (completion : Outcome (list ContentBlock))
    (conversationHistory : list Message) : M jsstring :=
  let prompt :=
    PROMPT_HEAD ++ conversationText conversationHistory ++ PROMPT_TAIL in
  message <- call_provider
    (messages_create ChatService.MODEL 1024 None [mkMessage user prompt])
    completion ;;
  ChatService.first_text message.

Definition SCORES : jsstring := utf16 "scores".
Definition COMMENTS : jsstring := utf16 "comments".

(** The record returned when the reply cannot be used. *)
Definition fallback : JsValue :=
  JObject
    [ (SCORES, JObject
        [ (utf16 "communication", JNumber (number_of_N 5));
          (utf16 "technical", JNumber (number_of_N 5));
          (utf16 "motivation", JNumber (number_of_N 5));
          (utf16 "problemSolving", JNumber (number_of_N 5));
          (utf16 "overall", JNumber (number_of_N 5)) ]);
      (COMMENTS, JObject
        [ (utf16 "strengths",
             JArray [JString (utf16 "評価データの生成に失敗しました")]);
          (utf16 "improvements", JArray []);
          (utf16 "summary", JString (utf16 "評価を再試行してください")) ]) ].

(** The body of the [try] block of [parseEvaluation]. *)
Definition parseEvaluation_try (evaluationText : jsstring) : Outcome JsValue :=
  match string_match json_block_regex evaluationText with
  | None => Thrown (mkError (utf16 "JSON形式の評価が見つかりません"))
  | Some jsonMatch0 =>
    match JSON_parse jsonMatch0 with
    | Thrown e => Thrown e
    | Returned parsed =>
      if negb (truthy (get_property parsed SCORES))
         || negb (truthy (get_property parsed COMMENTS))
      then Thrown (mkError (utf16 "評価データが不完全です"))
      else Returned parsed
    end
  end.

Definition parseEvaluation (evaluationText : jsstring) : Outcome JsValue :=
  try_catch (parseEvaluation_try evaluationText)
            (fun error => Returned fallback).

Definition EVALUATION_FAILED : jsstring := utf16 "評価の生成に失敗しました".

(** [{ ...evaluation, evaluatedAt: new Date().toISOString() }]. *)
Definition stamp (evaluation : JsValue) (now : jsstring) : JsValue :=
  JObject (own_properties evaluation ++ [(utf16 "evaluatedAt", JString now)]).

Definition evaluateCandidate (env : Env) (clientId : jsstring)
    (conversationHistory : list Message) : M JsValue :=
  try_
    (evaluationText <-
       generateEvaluation (completion_result env) conversationHistory ;;
     evaluation <- settle (parseEvaluation evaluationText) ;;
     let result := stamp evaluation (evaluated_at env) in
     modify (set_evaluations <[clientId := result]>) ;;
     (* console.log(..., result.scores.overall, ...) *)
     settle (member_access (get_property result SCORES)) ;;
     ret result)
    (fun error => throw (mkError EVALUATION_FAILED)).

(** [this.evaluations.get(clientId) || null]; a stored record is an
    object, hence truthy. *)
Definition getEvaluation (w : World) (clientId : jsstring) : option JsValue :=
  evaluations w !! clientId.

Definition clearEvaluation (clientId : jsstring) : M unit :=
  modify (set_evaluations (delete clientId)).

End EvaluationService.

(* ================================================================== *)
(** * AudioGateway *)
(* ================================================================== *)

Module AudioGateway.

Definition handleConnection (client : jsstring) : M unit :=
  modify (set_audioBuffers <[client := []]>).

Definition handleDisconnect (client : jsstring) : M unit :=
  modify (set_audioBuffers (delete client)).

Definition handleAudioData (client : jsstring) (payload : list N) : M unit :=
  buffer <- gets (fun w => audioBuffers w !! client) ;;
  match buffer with
  | Some _ => modify (set_audioBuffers (alter (fun b => b ++ [payload]) client))
  | None => ret tt
  end.

Definition enoent : JsError :=
  mkError (utf16 "ENOENT: no such file or directory").

(** [if (!fs.existsSync(tempDir)) fs.mkdirSync(tempDir, {recursive: true})]. *)
Definition ensure_temp_dir (mkdir : Outcome unit) : M unit :=
  dir <- gets tempDir ;;
  match dir with
  | Some _ => ret tt
  | None => settle mkdir ;; modify (set_tempDir (fun _ => Some ∅))
  end.

Definition writeFileSync (result : Outcome unit) (name : jsstring)
    (data : list N) : M unit :=
  dir <- gets tempDir ;;
  match dir with
  | None => throw enoent
  | Some files =>
    settle result ;; modify (set_tempDir (fun _ => Some (<[name := data]> files)))
  end.

Definition unlinkSync (result : Outcome unit) (name : jsstring) : M unit :=
  dir <- gets tempDir ;;
  match dir with
  | None => throw enoent
  | Some files =>
    match files !! name with
    | None => throw enoent
    | Some _ =>
      settle result ;; modify (set_tempDir (fun _ => Some (delete name files)))
    end
  end.

(** The name, inside the temporary directory, of the file of one run:
    [audio-${client.id}-${Date.now()}.webm]. *)
Definition tempFileName (client : jsstring) (now : N) : jsstring :=
  utf16 "audio-" ++ client ++ utf16 "-" ++ decimal now ++ utf16 ".webm".

Definition textToSpeech (speech : Outcome (list N)) (text : jsstring)
  : M (list N) :=
  try_
    (call_provider (speech_create (utf16 "tts-1") (utf16 "nova") text) speech)
    (fun error => throw error).

Definition handleAudioComplete (env : Env) (client : jsstring) : M unit :=
  buffer <- gets (fun w => audioBuffers w !! client) ;;
  match buffer with
  | None | Some [] => ret tt
  | Some chunks =>
    try_
      (let audioData := List.concat chunks in
       ensure_temp_dir (mkdir_result env) ;;
       let tempFilePath := tempFileName client (file_stamp env) in
       writeFileSync (write_result env) tempFilePath audioData ;;
       text <- call_provider
         (transcriptions_create tempFilePath (utf16 "whisper-1") (utf16 "ja"))
         (transcription_result env) ;;
       emit client (transcription text (transcription_time env)) ;;
       response <- ChatService.chat (completion_result env) client text ;;
       emit client (ai_response response (response_time env)) ;;
       audioBuffer <- textToSpeech (speech_result env) response ;;
       emit client (ai_audio (base64 audioBuffer)) ;;
       unlinkSync (unlink_result env) tempFilePath ;;
       modify (set_audioBuffers <[client := []]>))
      (fun error =>
         emit client
           (processing_error (utf16 "Failed to process audio") (message error)))
  end.

Definition missing_payload : JsError :=
  mkError (utf16 "Cannot read properties of undefined (reading 'message')").

(** [payload.message]: the payload is the object the handler declares,
    given by its [message], or [None] when the event came without one;
    reading a property of a missing payload throws a [TypeError]. *)
Definition read_payload_message (payload : option jsstring) : Outcome jsstring :=
  match payload with
  | Some text => Returned text
  | None => Thrown missing_payload
  end.

Definition handleTextMessage (env : Env) (client : jsstring)
    (payload : option jsstring) : M unit :=
  (* console.log(`... ${client.id}: ${payload.message}`), before the try *)
  payload_message <- settle (read_payload_message payload) ;;
  try_
    (response <-
       ChatService.chat (completion_result env) client payload_message ;;
     emit client (ai_response response (response_time env)) ;;
     audioBuffer <- textToSpeech (speech_result env) response ;;
     emit client (ai_audio (base64 audioBuffer)))
    (fun error =>
       emit client
         (processing_error (utf16 "Failed to generate response")
            (message error))).

Definition handleStartInterview (env : Env) (client : jsstring) : M unit :=
  try_
    (greeting <- ChatService.startInterview (completion_result env) client ;;
     emit client (ai_response greeting (response_time env)) ;;
     audioBuffer <- textToSpeech (speech_result env) greeting ;;
     emit client (ai_audio (base64 audioBuffer)))
    (fun error =>
       emit client
         (processing_error (utf16 "Failed to start interview")
            (message error))).

Definition NO_HISTORY : jsstring := utf16 "会話履歴がありません".

Definition handleEndInterview (env : Env) (client : jsstring) : M unit :=
  try_
    (history <- gets (fun w => ChatService.getHistory w client) ;;
     if Nat.eqb (length history) 0 then
       emit client (evaluation_error NO_HISTORY)
     else
       evaluation <-
         EvaluationService.evaluateCandidate env client history ;;
       (* console.log(..., evaluation.scores.overall, ...) *)
       settle (member_access
                 (get_property evaluation EvaluationService.SCORES)) ;;
       emit client (evaluation_complete evaluation))
    (fun error =>
       emit client (evaluation_error EvaluationService.EVALUATION_FAILED)).

Definition handleGetEvaluation (client : jsstring) : M unit :=
  evaluation <- gets (fun w => EvaluationService.getEvaluation w client) ;;
  match evaluation with
  | Some e => emit client (evaluation_result e)
  | None => emit client (evaluation_error (utf16 "評価結果が見つかりません"))
  end.

End AudioGateway.

(* ================================================================== *)
(** * Definitions used to state the properties *)
(* ================================================================== *)

(** The final state of a run. *)
Definition exec {A} (m : M A) (w : World) : World := snd (m w).

(** The extraction as the specification words it: "the first [{] through
    the last [}]". *)
Fixpoint from_first (c : N) (s : jsstring) : option jsstring :=
  match s with
  | [] => None
  | x :: s' => if x =? c then Some s else from_first c s'
  end.

Fixpoint through_last (c : N) (s : jsstring) : option jsstring :=
  match s with
  | [] => None
  | x :: s' =>
    match through_last c s' with
    | Some p => Some (x :: p)
    | None => if x =? c then Some [x] else None
    end
  end.

Definition first_brace_through_last_brace (s : jsstring) : option jsstring :=
  match from_first LBRACE s with
  | Some (b :: t) =>
    match through_last RBRACE t with
    | Some m => Some (b :: m)
    | None => None
    end
  | _ => None
  end.

(** The parsed data has a property of that name, whatever its value. *)
Definition has_property (v : JsValue) (key : jsstring) : bool :=
  match get_property v key with
  | Some _ => true
  | None => false
  end.

(** Successive [chat] calls of one session, each with the settlement of
    its provider request; the results are in call order. *)
Fixpoint chat_calls (clientId : jsstring)
    (calls : list (jsstring * Outcome (list ContentBlock))) (w : World)
  : list (Outcome jsstring) * World :=
  match calls with
  | [] => ([], w)
  | (userMessage, completion) :: rest =>
    let (r, w1) := ChatService.chat completion clientId userMessage w in
    let (rs, w2) := chat_calls clientId rest w1 in
    (r :: rs, w2)
  end.

(** User messages and assistant replies, alternating. *)
Fixpoint alternate (users replies : list jsstring) : list Message :=
  match users, replies with
  | u :: us, r :: rs =>
    mkMessage user u :: mkMessage assistant r :: alternate us rs
  | _, _ => []
  end.

(** The text the program takes from the first block of a response. *)
Definition block_text (b : ContentBlock) : jsstring :=
  match b with
  | TextBlock t => t
  | OtherBlock => []
  end.

(** What [chat], [startInterview] and [generateEvaluation] make of the
    settlement of their provider request. *)
Definition reply_of (completion : Outcome (list ContentBlock))
  : Outcome jsstring :=
  match completion with
  | Returned (b :: _) => Returned (block_text b)
  | Returned [] => Thrown ChatService.undefined_content
  | Thrown e => Thrown e
  end.

(** Whether the concatenated audio gets written: the directory is made
    when it is missing, then the file is written. *)
Definition save_result (env : Env) (w : World) : Outcome unit :=
  match tempDir w with
  | Some _ => write_result env
  | None =>
    match mkdir_result env with
    | Returned _ => write_result env
    | Thrown e => Thrown e
    end
  end.

(** The events of one audio run as the specification orders them:
    [transcription], [ai-response], [ai-audio], each emitted when its stage
    has succeeded; the first stage that fails ends the run with a single
    [processing-error]. *)
Definition audio_run_events (env : Env) (w : World) : list OutEvent :=
  let failed e :=
    [processing_error (utf16 "Failed to process audio") (message e)] in
  match save_result env w with
  | Thrown e => failed e
  | Returned _ =>
    match transcription_result env with
    | Thrown e => failed e
    | Returned text =>
      transcription text (transcription_time env) ::
      match reply_of (completion_result env) with
      | Thrown e => failed e
      | Returned reply =>
        ai_response reply (response_time env) ::
        match speech_result env with
        | Thrown e => failed e
        | Returned audio =>
          ai_audio (base64 audio) ::
          match unlink_result env with
          | Thrown e => failed e
          | Returned _ => []
          end
        end
      end
    end
  end.

(** The provider requests of one audio run: each stage sends its request
    once, and no stage runs after one has failed. *)
Definition audio_run_calls (env : Env) (w : World) (client : jsstring)
  : list ProviderCall :=
  match save_result env w with
  | Thrown _ => []
  | Returned _ =>
    transcriptions_create (AudioGateway.tempFileName client (file_stamp env))
      (utf16 "whisper-1") (utf16 "ja") ::
    match transcription_result env with
    | Thrown _ => []
    | Returned text =>
      messages_create ChatService.MODEL 500 (Some ChatService.getSystemPrompt)
        (ChatService.getHistory w client ++ [mkMessage user text]) ::
      match reply_of (completion_result env) with
      | Thrown _ => []
      | Returned reply => [speech_create (utf16 "tts-1") (utf16 "nova") reply]
      end
    end
  end.

(** The content of a file of the temporary directory, if it exists. *)
Definition temp_file (w : World) (name : jsstring) : option (list N) :=
  match tempDir w with
  | Some files => files !! name
  | None => None
  end.

(** Every step of an audio run went through. *)
Definition audio_run_ok (env : Env) (w : World) : bool :=
  match save_result env w, transcription_result env,
        reply_of (completion_result env), speech_result env,
        unlink_result env with
  | Returned _, Returned _, Returned _, Returned _, Returned _ => true
  | _, _, _, _, _ => false
  end.

(** The record [parseEvaluation] settles on. *)
Definition parsed_or_fallback (evaluationText : jsstring) : JsValue :=
  match EvaluationService.parseEvaluation_try evaluationText with
  | Returned parsed => parsed
  | Thrown _ => EvaluationService.fallback
  end.

(** The single request of [generateEvaluation]. *)
Definition evaluation_request (history : list Message) : ProviderCall :=
  messages_create ChatService.MODEL 1024 None
    [mkMessage user
       (EvaluationService.PROMPT_HEAD
          ++ EvaluationService.conversationText history
          ++ EvaluationService.PROMPT_TAIL)].

(** The shape the interface [EvaluationScores] promises: an object whose
    five criteria are numbers between 1 and 10. *)
Definition is_score (v : option JsValue) : bool :=
  match v with
  | Some (JNumber n) => number_in_1_10 n
  | _ => false
  end.

Definition scores_shape (v : option JsValue) : bool :=
  match v with
  | Some (JObject props) =>
    is_score (lookup_last (utf16 "communication") props)
    && is_score (lookup_last (utf16 "technical") props)
    && is_score (lookup_last (utf16 "motivation") props)
    && is_score (lookup_last (utf16 "problemSolving") props)
    && is_score (lookup_last (utf16 "overall") props)
  | _ => false
  end.

(** The events of a text or start-interview run, [what] being the
    description its [processing-error] carries. *)
Definition reply_run_events (what : jsstring) (env : Env) : list OutEvent :=
  match reply_of (completion_result env) with
  | Thrown e => [processing_error what (message e)]
  | Returned reply =>
    ai_response reply (response_time env) ::
    match speech_result env with
    | Thrown e => [processing_error what (message e)]
    | Returned audio => [ai_audio (base64 audio)]
    end
  end.

(** The provider requests of such a run, [request] being its chat
    request. *)
Definition reply_run_calls (request : ProviderCall) (env : Env)
  : list ProviderCall :=
  request ::
  match reply_of (completion_result env) with
  | Thrown _ => []
  | Returned reply => [speech_create (utf16 "tts-1") (utf16 "nova") reply]
  end.

(** The name an event travels under. *)
Definition event_name (ev : OutEvent) : jsstring :=
  match ev with
  | transcription _ _ => utf16 "transcription"
  | ai_response _ _ => utf16 "ai-response"
  | ai_audio _ => utf16 "ai-audio"
  | processing_error _ _ => utf16 "processing-error"
  | evaluation_complete _ => utf16 "evaluation-complete"
  | evaluation_error _ => utf16 "evaluation-error"
  | evaluation_result _ => utf16 "evaluation-result"
  end.

(** The [error] field of an error event. *)
Definition error_field (ev : OutEvent) : option jsstring :=
  match ev with
  | processing_error _ e => Some e
  | evaluation_error e => Some e
  | _ => None
  end.

(** The provider stage of an audio run that fails first, counted from 1
    (transcription, chat, synthesis), with its error. *)
Definition audio_provider_failure (env : Env) : option (nat * JsError) :=
  match transcription_result env with
  | Thrown e => Some (1%nat, e)
  | Returned _ =>
    match reply_of (completion_result env) with
    | Thrown e => Some (2%nat, e)
    | Returned _ =>
      match speech_result env with
      | Thrown e => Some (3%nat, e)
      | Returned _ => None
      end
    end
  end.

(** The same for a text or start-interview run (chat, synthesis). *)
Definition reply_provider_failure (env : Env) : option (nat * JsError) :=
  match reply_of (completion_result env) with
  | Thrown e => Some (1%nat, e)
  | Returned _ =>
    match speech_result env with
    | Thrown e => Some (2%nat, e)
    | Returned _ => None
    end
  end.

(** ** Sample sessions *)

Definition session_a : jsstring := utf16 "sess-A".
Definition session_b : jsstring := utf16 "sess-B".

(** A process that has just started. *)
Definition world0 : World := mkWorld ∅ ∅ ∅ None [] [].

(** Session A has connected and sent one audio chunk. *)
Definition recording : World :=
  exec (AudioGateway.handleAudioData session_a [26; 69; 223; 163])
    (exec (AudioGateway.handleConnection session_a) world0).

(** Session A has connected but sent no audio. *)
Definition connected : World :=
  exec (AudioGateway.handleConnection session_a) world0.

Definition env_of (tr : Outcome jsstring) (co : Outcome (list ContentBlock))
    (sp : Outcome (list N)) : Env :=
  mkEnv 1730538000000
    (utf16 "2024-11-02T09:00:00.000Z") (utf16 "2024-11-02T09:00:01.000Z")
    (utf16 "2024-11-02T09:00:02.000Z")
    (Returned tt) (Returned tt) (Returned tt) tr co sp.

(** Every provider answers. *)
Definition env_up : Env :=
  env_of (Returned (utf16 "I built a billing system."))
         (Returned [TextBlock (utf16 "What was the hardest part?")])
         (Returned [73; 68; 51]).

Definition rate_limited : JsError := mkError (utf16 "429 rate limit exceeded").

(** The transcription provider is down. *)
Definition env_no_transcription : Env :=
  env_of (Thrown rate_limited)
         (Returned [TextBlock (utf16 "What was the hardest part?")])
         (Returned [73; 68; 51]).

(** The chat provider is down. *)
Definition env_no_chat : Env :=
  env_of (Returned (utf16 "I built a billing system."))
         (Thrown rate_limited) (Returned [73; 68; 51]).

(** Session A after one answered text message. *)
Definition interviewed : World :=
  exec (AudioGateway.handleTextMessage env_up session_a
          (Some (utf16 "I built a billing system.")))
    connected.

(** Session A has connected and sent one chunk that holds no byte. *)
Definition silent : World :=
  exec (AudioGateway.handleAudioData session_a []) connected.

(** Two answered [chat] calls and what they returned. *)
Definition two_calls : list (jsstring * Outcome (list ContentBlock)) :=
  [ (utf16 "I built a billing system.",
     Returned [TextBlock (utf16 "What was the hardest part?")]);
    (utf16 "Migrating the ledger.",
     Returned [TextBlock (utf16 "How did you test it?"); OtherBlock]) ].

Definition two_replies : list jsstring :=
  [utf16 "What was the hardest part?"; utf16 "How did you test it?"].

(** A grading reply whose data has both fields, one of them falsy. *)
Definition reply_zero_scores : jsstring :=
  quoted "{'scores':0,'comments':{'summary':'fine'}}".

(** A grading reply with prose around data of the wrong shape. *)
Definition reply_odd_scores : jsstring :=
  quoted "Here you go: {'scores':{'communication':42,'technical':'high'},'comments':true} Done.".

(** The chat provider answers with a well-formed grading. *)
Definition env_graded : Env :=
  env_of (Returned [])
    (Returned [TextBlock (quoted
       "{'scores':{'communication':8,'technical':7,'motivation':9,'problemSolving':6,'overall':7.5},'comments':{'strengths':['clear'],'improvements':[],'summary':'good'}}")])
    (Returned []).

(** Symbolic execution of a handler on a state given field by field. *)
Ltac run_handler :=
  cbv beta iota zeta delta
    [ exec fst snd bind try_ ret throw gets modify settle emit call_provider
      set_audioBuffers set_conversationHistory set_evaluations set_tempDir
      set_emitted set_providerCalls
      audioBuffers conversationHistory evaluations tempDir emitted
      providerCalls
      ChatService.chat ChatService.startInterview ChatService.first_text
      ChatService.ensure_history ChatService.push ChatService.the_history
      ChatService.clearHistory ChatService.getHistory
      EvaluationService.generateEvaluation EvaluationService.evaluateCandidate
      EvaluationService.getEvaluation EvaluationService.clearEvaluation
      AudioGateway.handleConnection AudioGateway.handleDisconnect
      AudioGateway.handleAudioData AudioGateway.ensure_temp_dir
      AudioGateway.writeFileSync AudioGateway.unlinkSync
      AudioGateway.textToSpeech AudioGateway.handleAudioComplete
      AudioGateway.handleTextMessage AudioGateway.handleStartInterview
      AudioGateway.read_payload_message
      AudioGateway.handleEndInterview AudioGateway.handleGetEvaluation
      reply_of save_result audio_run_events audio_run_calls temp_file
      audio_run_ok reply_run_events reply_run_calls evaluation_request
      audio_provider_failure reply_provider_failure
      mkdir_result write_result unlink_result transcription_result
      completion_result speech_result file_stamp transcription_time
      response_time evaluated_at ].

(** Case analysis over everything the outside world can answer during an
    audio run. *)
Ltac audio_run_cases td mk wr tr co sp ul :=
  destruct td, mk as [[]|], wr as [[]|], tr, co as [[|[]]|], sp, ul as [[]|];
  run_handler; rewrite ?lookup_insert_eq; cbv beta iota;
  rewrite ?lookup_insert_eq, ?lookup_delete_eq.

(* ================================================================== *)
(** * The socket events, and the client side of [ai-audio] *)
(* ================================================================== *)

(** What a client can send, with the two lifecycle events of its socket.
    The names are those of the [@SubscribeMessage] decorators. *)
Inductive Inbound :=
| connection
| disconnect
| audio_data (payload : list N)
| audio_complete
| text_message (payload : option jsstring)
| start_interview
| end_interview
| get_evaluation.

(** The handler the gateway runs for an event of a client. *)
Definition handle (env : Env) (client : jsstring) (ev : Inbound) : M unit :=
  match ev with
  | connection => AudioGateway.handleConnection client
  | disconnect => AudioGateway.handleDisconnect client
  | audio_data payload => AudioGateway.handleAudioData client payload
  | audio_complete => AudioGateway.handleAudioComplete env client
  | text_message payload =>
    AudioGateway.handleTextMessage env client payload
  | start_interview => AudioGateway.handleStartInterview env client
  | end_interview => AudioGateway.handleEndInterview env client
  | get_evaluation => AudioGateway.handleGetEvaluation client
  end.

(** The chunks of a recording arriving one after the other. *)
Fixpoint receive_chunks (client : jsstring) (payloads : list (list N))
    (w : World) : World :=
  match payloads with
  | [] => w
  | p :: rest =>
    receive_chunks client rest (exec (AudioGateway.handleAudioData client p) w)
  end.

(** The turn of the history an event shows to the client, if any. *)
Definition turn_of_event (ev : OutEvent) : option Message :=
  match ev with
  | transcription text _ => Some (mkMessage user text)
  | ai_response reply _ => Some (mkMessage assistant reply)
  | _ => None
  end.

Definition turns_shown (events : list OutEvent) : list Message :=
  omap turn_of_event events.

(** ** [atob] *)

Definition is_ascii_whitespace (c : N) : bool :=
  (c =? 9) || (c =? 10) || (c =? 12) || (c =? 13) || (c =? 32).

(** The value of a character of the base64 alphabet. *)
Definition sextet (c : N) : option N :=
  if (65 <=? c) && (c <=? 90) then Some (c - 65)
  else if (97 <=? c) && (c <=? 122) then Some (c - 71)
  else if (48 <=? c) && (c <=? 57) then Some (c + 4)
  else if c =? 43 then Some 62
  else if c =? 47 then Some 63
  else None.

Fixpoint sextets_of (s : jsstring) : option (list N) :=
  match s with
  | [] => Some []
  | c :: s' =>
    match sextet c, sextets_of s' with
    | Some d, Some ds => Some (d :: ds)
    | _, _ => None
    end
  end.

(** One or two [=] at the end are removed. *)
Definition strip_padding (s : jsstring) : jsstring :=
  match rev s with
  | c1 :: c2 :: r =>
    if c1 =? 61 then (if c2 =? 61 then rev r else rev (c2 :: r)) else s
  | [c1] => if c1 =? 61 then [] else s
  | [] => s
  end.

(** Groups of four sextets give three bytes; two sextets left over give
    one byte and three give two, the bits beyond being dropped. *)
Fixpoint bytes_of_sextets (ds : list N) : list N :=
  match ds with
  | d1 :: d2 :: d3 :: d4 :: rest =>
    let n := ((d1 * 64 + d2) * 64 + d3) * 64 + d4 in
    n / 65536 :: (n / 256) mod 256 :: n mod 256 :: bytes_of_sextets rest
  | [d1; d2; d3] =>
    let n := (d1 * 64 + d2) * 64 + d3 in
    [n / 1024; (n / 4) mod 256]
  | [d1; d2] => [(d1 * 64 + d2) / 16]
  | _ => []
  end.

Definition invalid_character : JsError :=
  mkError (utf16 "The string to be decoded is not correctly encoded.").

(** [atob(data)], the forgiving base64 decoding of browsers: white space
    is dropped, padding is removed from a text whose length is a multiple
    of four, and a text of length 1 modulo 4 or with a character outside the
    alphabet is refused.  The result has one code unit per byte. *)
Definition atob (data : jsstring) : Outcome jsstring :=
  let s1 := filter (fun c => is_ascii_whitespace c = false) data in
  let s2 := if Nat.eqb (length s1 mod 4) 0 then strip_padding s1 else s1 in
  if Nat.eqb (length s2 mod 4) 1 then Thrown invalid_character
  else
    match sextets_of s2 with
    | Some ds => Returned (bytes_of_sextets ds)
    | None => Thrown invalid_character
    end.

(** The bytes the page hands to the player for an [ai-audio] event:
    [atob], then [charCodeAt] position by position, then [Uint8Array]. *)
Definition received_audio (audio : jsstring) : Outcome (list N) :=
  match atob audio with
  | Returned byteCharacters =>
    Returned (List.map (fun code => code mod 256) byteCharacters)
  | Thrown e => Thrown e
  end.

(** Symbolic execution that also opens the handlers of the services. *)
Ltac run_gateway :=
  cbv beta iota zeta delta [handle receive_chunks turns_shown];
  run_handler.

(* ================================================================== *)
(** * Properties of the runtime model *)
(* ================================================================== *)

Lemma any_code_unit c : class_s c || class_S c = true.
Proof. unfold class_S. apply orb_negb_r. Qed.

Lemma through_last_greedy s :
  match_many (fun c => class_s c || class_S c)
             (match_here [One (N.eqb RBRACE)]) s
  = through_last RBRACE s.
Proof.
  induction s as [|x s IH]; [reflexivity|].
  cbn [match_many through_last]. rewrite any_code_unit, IH.
  destruct (through_last RBRACE s); [reflexivity|].
  cbn [match_here]. rewrite N.eqb_sym. by destruct (x =? RBRACE).
Qed.

Lemma match_here_json_block s :
  match_here json_block_regex s =
  match s with
  | c :: s' =>
    if c =? LBRACE then
      match through_last RBRACE s' with
      | Some m => Some (c :: m)
      | None => None
      end
    else None
  | [] => None
  end.
Proof.
  destruct s as [|c s]; [reflexivity|].
  unfold json_block_regex. cbn [match_here].
  rewrite through_last_greedy, N.eqb_sym. reflexivity.
Qed.

Lemma through_last_tail c x s :
  through_last c (x :: s) = None -> through_last c s = None.
Proof. cbn. by destruct (through_last c s). Qed.

Lemma string_match_no_closing s :
  through_last RBRACE s = None -> string_match json_block_regex s = None.
Proof.
  induction s as [|c s IH]; intros H.
  - reflexivity.
  - pose proof (through_last_tail _ _ _ H) as Ht.
    cbn [string_match]. rewrite match_here_json_block, Ht.
    destruct (c =? LBRACE); by apply IH.
Qed.

(** The regular expression of [parseEvaluation] cuts out exactly the text
    from the first opening brace through the last closing brace. *)
Lemma string_match_json_block s :
  string_match json_block_regex s = first_brace_through_last_brace s.
Proof.
  unfold first_brace_through_last_brace.
  induction s as [|c s IH]; [reflexivity|].
  cbn [string_match from_first]. rewrite match_here_json_block.
  destruct (c =? LBRACE) eqn:Hc.
  - destruct (through_last RBRACE s) eqn:Ht; [reflexivity|].
    by apply string_match_no_closing.
  - exact IH.
Qed.

Lemma from_first_app c pre t :
  c ∉ pre -> from_first c (pre ++ c :: t) = Some (c :: t).
Proof.
  induction pre as [|x pre IH]; intros Hn; cbn.
  - by rewrite N.eqb_refl.
  - apply not_elem_of_cons in Hn as [Hx Hn].
    destruct (N.eqb_spec x c); [congruence|]. by apply IH.
Qed.

Lemma from_first_inv c s t :
  from_first c s = Some t ->
  exists pre t', s = pre ++ c :: t' /\ t = c :: t' /\ c ∉ pre.
Proof.
  induction s as [|x s IH]; cbn; [done|].
  destruct (N.eqb_spec x c) as [->|Hne]; intros H.
  - injection H as <-. exists [], s. split_and!; [done|done|]. apply not_elem_of_nil.
  - destruct (IH H) as (pre & t' & -> & -> & Hn).
    exists (x :: pre), t'. split_and!; [done|done|].
    apply not_elem_of_cons. split; [congruence|done].
Qed.

Lemma through_last_none c s : through_last c s = None <-> c ∉ s.
Proof.
  induction s as [|x s IH]; cbn.
  - split; [intros _; apply not_elem_of_nil|done].
  - rewrite not_elem_of_cons, <- IH.
    destruct (through_last c s); [split; [done|intros [_ ?]; done]|].
    destruct (N.eqb_spec x c) as [->|Hne]; split; try done.
    intros [? _]. congruence.
Qed.

Lemma through_last_app c mid post :
  c ∉ post -> through_last c (mid ++ c :: post) = Some (mid ++ [c]).
Proof.
  intros Hn. induction mid as [|x mid IH]; cbn.
  - apply through_last_none in Hn. by rewrite Hn, N.eqb_refl.
  - by rewrite IH.
Qed.

Lemma through_last_inv c s m :
  through_last c s = Some m ->
  exists mid post, s = mid ++ c :: post /\ m = mid ++ [c] /\ c ∉ post.
Proof.
  revert m. induction s as [|x s IH]; cbn; [done|]. intros m.
  destruct (through_last c s) as [p|] eqn:Hp.
  - intros [= <-]. destruct (IH _ eq_refl) as (mid & post & -> & -> & Hn).
    by exists (x :: mid), post.
  - destruct (N.eqb_spec x c) as [->|Hne]; [|done].
    intros [= <-]. exists [], s. split_and!; [done|done|].
    by apply through_last_none.
Qed.

(** A match is a block that starts with [{], ends with [}] and is cut at
    the first [{] and the last [}] of the reply. *)
Lemma first_brace_through_last_brace_split s block :
  first_brace_through_last_brace s = Some block <->
  exists pre mid post,
    s = pre ++ [LBRACE] ++ mid ++ [RBRACE] ++ post /\
    block = [LBRACE] ++ mid ++ [RBRACE] /\
    (LBRACE ∉ pre) /\ (RBRACE ∉ post).
Proof.
  unfold first_brace_through_last_brace. split.
  - destruct (from_first LBRACE s) as [t|] eqn:Hf; [|done].
    destruct (from_first_inv _ _ _ Hf) as (pre & t' & -> & -> & Hpre).
    destruct (through_last RBRACE t') as [m|] eqn:Hl; [|done].
    destruct (through_last_inv _ _ _ Hl) as (mid & post & -> & -> & Hpost).
    intros [= <-]. by exists pre, mid, post.
  - intros (pre & mid & post & -> & -> & Hpre & Hpost). cbn.
    rewrite from_first_app by done. by rewrite through_last_app.
Qed.

(* ================================================================== *)
(** * [JSON.parse]: the fuel is enough *)
(* ================================================================== *)

Lemma skip_ws_length s : (length (skip_ws s) <= length s)%nat.
Proof.
  induction s as [|c s IH]; cbn [skip_ws length]; [lia|].
  destruct (is_json_space c); cbn [length]; lia.
Qed.

Lemma skip_ws_cons s c r :
  skip_ws s = c :: r -> (S (length r) <= length s)%nat.
Proof.
  intros H. pose proof (skip_ws_length s) as Hl.
  rewrite H in Hl. exact Hl.
Qed.

Lemma take_digits_length s ds r :
  take_digits s = (ds, r) -> (length r <= length s)%nat.
Proof.
  revert ds r. induction s as [|c s IH]; intros ds r; cbn [take_digits].
  - by intros [= <- <-].
  - destruct (is_digit c).
    + destruct (take_digits s) as [ds' r'] eqn:E. intros [= <- <-].
      specialize (IH _ _ eq_refl). cbn [length]. lia.
    + by intros [= <- <-].
Qed.

Lemma parse_string_chars_length n : forall s str r,
  (length s <= n)%nat ->
  parse_string_chars s = Some (str, r) -> (length r < length s)%nat.
Proof.
  induction n as [|n IH]; intros s str r Hn; destruct s as [|c s];
    cbn [parse_string_chars length] in *; try done; try lia.
  intros H. repeat case_match; simplify_eq; cbn [length] in *; try lia.
  all: match goal with
       | E : parse_string_chars _ = Some _ |- _ =>
         apply IH in E; cbn [length] in *; lia
       end.
Qed.

Lemma parse_number_length s n r :
  parse_number s = Some (n, r) -> (length r <= length s)%nat.
Proof.
  unfold parse_number, parse_unsigned, parse_int_part, parse_frac_part,
    parse_exp_part, parse_exp_digits.
  intros H. repeat case_match; simplify_eq; cbn [length] in *; try lia.
  all: repeat match goal with
       | E : take_digits _ = (_, _) |- _ =>
         apply take_digits_length in E; cbn [length] in E
       end; lia.
Qed.

Lemma strip_prefix_length word : forall s r,
  strip_prefix word s = Some r -> (length r <= length s)%nat.
Proof.
  induction word as [|x word IH]; intros s r; cbn [strip_prefix].
  - by intros [= <-].
  - destruct s as [|c s]; [done|]. destruct (c =? x); [|done].
    intros H. apply IH in H. cbn [length]. lia.
Qed.

Lemma of_option_length {A} (o : option (A * list N)) v r (n : nat) :
  (forall a r', o = Some (a, r') -> (length r' <= n)%nat) ->
  of_option o = Parsed v r -> (length r <= n)%nat.
Proof. destruct o as [[a r']|]; [|done]. intros H [= <- <-]. eauto. Qed.

(** A parsed value leaves no more input than it was given. *)
Lemma parse_rest_length fuel :
  (forall s v r,
     parse_value fuel s = Parsed v r -> (length r <= length s)%nat) /\
  (forall s acc v r,
     parse_elements fuel s acc = Parsed v r -> (length r <= length s)%nat) /\
  (forall s acc v r,
     parse_members fuel s acc = Parsed v r -> (length r <= length s)%nat).
Proof.
  induction fuel as [|fuel (IHv & IHe & IHm)]; [by split_and!|].
  split_and!.
  - intros s v r. cbn [parse_value].
    destruct (skip_ws s) as [|c t] eqn:Hs; [done|].
    apply skip_ws_cons in Hs.
    destruct (c =? LBRACE).
    { destruct (skip_ws t) as [|c' t'] eqn:Ht; [done|].
      apply skip_ws_cons in Ht.
      destruct (c' =? RBRACE); [intros [= <- <-]; lia|].
      intros H. apply IHm in H. cbn [length] in H. lia. }
    destruct (c =? 91).
    { destruct (skip_ws t) as [|c' t'] eqn:Ht; [done|].
      apply skip_ws_cons in Ht.
      destruct (c' =? 93); [intros [= <- <-]; lia|].
      intros H. apply IHe in H. cbn [length] in H. lia. }
    destruct (c =? 34).
    { destruct (parse_string_chars t) as [[str t']|] eqn:Hstr; [|done].
      apply (parse_string_chars_length _ _ _ _ (le_n _)) in Hstr.
      intros [= <- <-]. lia. }
    destruct (c =? 116).
    { intros H. apply (of_option_length _ _ _ (length t)) in H; [lia|].
      intros a r'. destruct (strip_prefix _ t) eqn:Hp; [|done].
      intros [= <- <-]. by apply strip_prefix_length in Hp. }
    destruct (c =? 102).
    { intros H. apply (of_option_length _ _ _ (length t)) in H; [lia|].
      intros a r'. destruct (strip_prefix _ t) eqn:Hp; [|done].
      intros [= <- <-]. by apply strip_prefix_length in Hp. }
    destruct (c =? 110).
    { intros H. apply (of_option_length _ _ _ (length t)) in H; [lia|].
      intros a r'. destruct (strip_prefix _ t) eqn:Hp; [|done].
      intros [= <- <-]. by apply strip_prefix_length in Hp. }
    destruct (parse_number (c :: t)) as [[n t']|] eqn:Hn; [|done].
    apply parse_number_length in Hn. cbn [length] in Hn.
    intros [= <- <-]. lia.
  - intros s acc v r. cbn [parse_elements].
    destruct (parse_value fuel s) as [v1 r1| |] eqn:Hv; [|done|done].
    apply IHv in Hv.
    destruct (skip_ws r1) as [|c t] eqn:Hs; [done|].
    apply skip_ws_cons in Hs.
    destruct (c =? 44); [intros H; apply IHe in H; lia|].
    destruct (c =? 93); [|done]. intros [= <- <-]. lia.
  - intros s acc v r. cbn [parse_members].
    destruct (skip_ws s) as [|c t] eqn:Hs; [done|].
    apply skip_ws_cons in Hs.
    destruct (c =? 34); [|done].
    destruct (parse_string_chars t) as [[key t1]|] eqn:Hk; [|done].
    apply (parse_string_chars_length _ _ _ _ (le_n _)) in Hk.
    destruct (skip_ws t1) as [|c1 t2] eqn:Hs1; [done|].
    apply skip_ws_cons in Hs1.
    destruct (c1 =? 58); [|done].
    destruct (parse_value fuel t2) as [v1 t3| |] eqn:Hv; [|done|done].
    apply IHv in Hv.
    destruct (skip_ws t3) as [|c3 t4] eqn:Hs3; [done|].
    apply skip_ws_cons in Hs3.
    destruct (c3 =? 44); [intros H; apply IHm in H; lia|].
    destruct (c3 =? RBRACE); [|done]. intros [= <- <-]. lia.
Qed.

Lemma of_option_fuel {A} (o : option (A * list N)) : of_option o <> OutOfFuel.
Proof. by destruct o as [[]|]. Qed.

(** With two units of fuel per code unit and one to start, the descent
    never stops for lack of fuel. *)
Lemma parse_fuel_enough fuel :
  (forall s, (2 * length s + 1 <= fuel)%nat ->
     parse_value fuel s <> OutOfFuel) /\
  (forall s acc, (2 * length s + 2 <= fuel)%nat ->
     parse_elements fuel s acc <> OutOfFuel) /\
  (forall s acc, (2 * length s + 2 <= fuel)%nat ->
     parse_members fuel s acc <> OutOfFuel).
Proof.
  induction fuel as [|fuel (IHv & IHe & IHm)].
  { split_and!; intros; lia. }
  split_and!.
  - intros s Hf. cbn [parse_value].
    destruct (skip_ws s) as [|c t] eqn:Hs; [done|].
    apply skip_ws_cons in Hs.
    destruct (c =? LBRACE).
    { destruct (skip_ws t) as [|c' t'] eqn:Ht; [done|].
      apply skip_ws_cons in Ht.
      destruct (c' =? RBRACE); [done|]. apply IHm. cbn [length]. lia. }
    destruct (c =? 91).
    { destruct (skip_ws t) as [|c' t'] eqn:Ht; [done|].
      apply skip_ws_cons in Ht.
      destruct (c' =? 93); [done|]. apply IHe. cbn [length]. lia. }
    destruct (c =? 34); [by destruct (parse_string_chars t) as [[]|]|].
    destruct (c =? 116); [apply of_option_fuel|].
    destruct (c =? 102); [apply of_option_fuel|].
    destruct (c =? 110); [apply of_option_fuel|].
    by destruct (parse_number (c :: t)) as [[]|].
  - intros s acc Hf. cbn [parse_elements].
    destruct (parse_value fuel s) as [v1 r1| |] eqn:Hv; [|done|].
    + apply (proj1 (parse_rest_length fuel)) in Hv.
      destruct (skip_ws r1) as [|c t] eqn:Hs; [done|].
      apply skip_ws_cons in Hs.
      destruct (c =? 44); [apply IHe; lia|]. by destruct (c =? 93).
    + exfalso. revert Hv. apply IHv. lia.
  - intros s acc Hf. cbn [parse_members].
    destruct (skip_ws s) as [|c t] eqn:Hs; [done|].
    apply skip_ws_cons in Hs.
    destruct (c =? 34); [|done].
    destruct (parse_string_chars t) as [[key t1]|] eqn:Hk; [|done].
    apply (parse_string_chars_length _ _ _ _ (le_n _)) in Hk.
    destruct (skip_ws t1) as [|c1 t2] eqn:Hs1; [done|].
    apply skip_ws_cons in Hs1.
    destruct (c1 =? 58); [|done].
    destruct (parse_value fuel t2) as [v1 t3| |] eqn:Hv; [|done|].
    + apply (proj1 (parse_rest_length fuel)) in Hv.
      destruct (skip_ws t3) as [|c3 t4] eqn:Hs3; [done|].
      apply skip_ws_cons in Hs3.
      destruct (c3 =? 44); [apply IHm; lia|]. by destruct (c3 =? RBRACE).
    + exfalso. revert Hv. apply IHv. lia.
Qed.

(** [JSON_parse] throws only for a text that is not JSON: the fuel it
    gives the descent never runs out. *)
Lemma JSON_parse_fuel text :
  parse_value (json_fuel text) text <> OutOfFuel.
Proof. apply parse_fuel_enough. unfold json_fuel. lia. Qed.

Lemma parse_members_object fuel : forall s acc v r,
  parse_members fuel s acc = Parsed v r -> exists props, v = JObject props.
Proof.
  induction fuel as [|fuel IH]; intros s acc v r; cbn [parse_members];
    [done|].
  intros H. repeat case_match; simplify_eq; eauto.
Qed.

(** The block that [parseEvaluation] hands to [JSON.parse] starts with a
    brace, so what comes back is an object. *)
Lemma JSON_parse_block_object s v :
  JSON_parse (LBRACE :: s) = Returned v -> exists props, v = JObject props.
Proof.
  unfold JSON_parse, json_fuel.
  destruct (parse_value _ _) as [v' r| |] eqn:Hp; [|done|done].
  intros H. assert (v' = v) as -> by (by destruct (skip_ws r); simplify_eq).
  clear H. revert Hp.
  generalize (length (LBRACE :: s)). intros n.
  replace (2 * n + 1)%nat with (S (2 * n)) by lia.
  cbn [parse_value skip_ws].
  change (is_json_space LBRACE) with false. cbv iota.
  change (LBRACE =? LBRACE) with true. cbv iota.
  destruct (skip_ws s) as [|c' t']; [done|].
  destruct (c' =? RBRACE); [intros [= <- <-]; by eexists|].
  apply parse_members_object.
Qed.

(* ================================================================== *)
(** * ChatService: the conversation history *)
(* ================================================================== *)

Section Chat.
Variables (clientId userMessage : list N).

(** The history the map holds once the user turn has been pushed. *)
Lemma history_after_user_turn (h : gmap (list N) (list Message)) m :
  alter (fun l => l ++ [m]) clientId
    (match h !! clientId with
     | Some _ => h
     | None => <[clientId := []]> h
     end) !! clientId
  = Some (default [] (h !! clientId) ++ [m]).
Proof.
  rewrite lookup_alter_eq.
  destruct (h !! clientId) as [l|] eqn:Hl.
  - by rewrite Hl.
  - by rewrite lookup_insert_eq.
Qed.

(** A rejected provider call: the rejection reaches the caller, the
    request was issued once, and the user turn stays in the history. *)
Lemma chat_rejected e w :
  exists w',
    ChatService.chat (Thrown e) clientId userMessage w = (Thrown e, w') /\
    ChatService.getHistory w' clientId
      = ChatService.getHistory w clientId ++ [mkMessage user userMessage] /\
    providerCalls w'
      = providerCalls w ++
          [messages_create ChatService.MODEL 500
             (Some ChatService.getSystemPrompt)
             (ChatService.getHistory w clientId
                ++ [mkMessage user userMessage])].
Proof.
  destruct w as [ab ch ev td em pc]. eexists. split; [reflexivity|].
  run_handler. rewrite !history_after_user_turn.
  destruct (ch !! clientId); done.
Qed.

(** A response without a first block makes [chat] throw as well. *)
Lemma chat_empty_response w :
  exists w',
    ChatService.chat (Returned []) clientId userMessage w
      = (Thrown ChatService.undefined_content, w') /\
    ChatService.getHistory w' clientId
      = ChatService.getHistory w clientId ++ [mkMessage user userMessage].
Proof.
  destruct w as [ab ch ev td em pc]. eexists. split; [reflexivity|].
  run_handler. rewrite !history_after_user_turn.
  destruct (ch !! clientId); done.
Qed.

(** An answered call: the reply is the text of the first block, and the
    history has grown by the user turn and the assistant turn. *)
Lemma chat_answered b blocks w :
  exists w',
    ChatService.chat (Returned (b :: blocks)) clientId userMessage w
      = (Returned (block_text b), w') /\
    ChatService.getHistory w' clientId
      = ChatService.getHistory w clientId
          ++ [mkMessage user userMessage;
              mkMessage assistant (block_text b)].
Proof.
  destruct w as [ab ch ev td em pc].
  eexists (exec (ChatService.chat (Returned (b :: blocks)) clientId
                   userMessage) _).
  split; [destruct b; reflexivity|].
  run_handler. destruct b; cbv beta iota.
  all: rewrite lookup_alter_eq, !history_after_user_turn.
  all: destruct (ch !! clientId); cbn; by rewrite <- ?app_assoc.
Qed.

(** What a call that returned has done to the history. *)
Lemma chat_returned completion reply w w' :
  ChatService.chat completion clientId userMessage w = (Returned reply, w') ->
  ChatService.getHistory w' clientId
    = ChatService.getHistory w clientId
        ++ [mkMessage user userMessage; mkMessage assistant reply].
Proof.
  destruct completion as [[|b blocks]|e].
  - destruct (chat_empty_response w) as (w1 & -> & _). done.
  - destruct (chat_answered b blocks w) as (w1 & -> & H).
    by intros [= <- <-].
  - destruct (chat_rejected e w) as (w1 & -> & _). done.
Qed.
End Chat.

Lemma alternate_length users replies :
  length users = length replies ->
  length (alternate users replies) = (2 * length users)%nat.
Proof.
  revert replies. induction users as [|u us IH]; intros [|r rs]; cbn; try done.
  intros [= H]. rewrite (IH _ H). lia.
Qed.

Lemma chat_calls_history clientId calls : forall w replies,
  fst (chat_calls clientId calls w) = List.map Returned replies ->
  ChatService.getHistory (snd (chat_calls clientId calls w)) clientId
  = ChatService.getHistory w clientId
      ++ alternate (List.map fst calls) replies.
Proof.
  induction calls as [|[u completion] calls IH]; intros w replies;
    cbn [chat_calls fst snd List.map alternate].
  - destruct replies; [|done]. by rewrite app_nil_r.
  - destruct (ChatService.chat completion clientId u w) as [r w1] eqn:Hc.
    specialize (IH w1).
    destruct (chat_calls clientId calls w1) as [rs w2].
    cbn [fst snd] in *.
    destruct replies as [|reply replies]; [done|].
    cbn [List.map alternate]. intros [= -> ->].
    rewrite (IH _ eq_refl), (chat_returned _ _ _ _ _ _ Hc), <- app_assoc.
    reflexivity.
Qed.

(** C5: starting from an empty history, after N [chat] calls that all
    returned, [getHistory] gives exactly 2N turns: for each call, in call
    order, the user message and then the reply that call returned. *)
Theorem history_after_successful_chats clientId calls w replies :
  ChatService.getHistory w clientId = [] ->
  fst (chat_calls clientId calls w) = List.map Returned replies ->
  let history :=
    ChatService.getHistory (snd (chat_calls clientId calls w)) clientId in
  history = alternate (List.map fst calls) replies /\
  length history = (2 * length calls)%nat.
Proof.
  intros Hempty Hok. cbn zeta.
  rewrite (chat_calls_history _ _ _ _ Hok), Hempty. split; [reflexivity|].
  cbn [app]. apply (f_equal (@length _)) in Hok.
  rewrite length_map in Hok.
  rewrite alternate_length, length_map; [reflexivity|].
  rewrite length_map, <- Hok.
  clear. revert w. induction calls as [|[u completion] calls IH]; intros w;
    cbn [chat_calls fst length]; [reflexivity|].
  destruct (ChatService.chat completion clientId u w) as [r w1].
  specialize (IH w1). destruct (chat_calls clientId calls w1) as [rs w2].
  cbn [fst length] in *. by rewrite IH.
Qed.

(* ================================================================== *)
(** * AudioGateway: one run of the audio pipeline *)
(* ================================================================== *)

Section AudioComplete.
Variables (env : Env) (client : list N) (w : World).
Variables (chunk : list N) (chunks : list (list N)).
Hypothesis accumulated : audioBuffers w !! client = Some (chunk :: chunks).


Lemma audio_complete_emitted :
  emitted (exec (AudioGateway.handleAudioComplete env client) w)
  = emitted w ++ List.map (pair client) (audio_run_events env w).
Proof.
  destruct w as [ab ch ev td em pc], env as [fs t1 t2 t3 mk wr ul tr co sp].
  cbn [audioBuffers] in accumulated.
  run_handler. rewrite accumulated. cbv beta iota.
  audio_run_cases td mk wr tr co sp ul;
    rewrite <- ?app_assoc, ?app_nil_r; reflexivity.
Qed.

Lemma audio_complete_calls :
  providerCalls (exec (AudioGateway.handleAudioComplete env client) w)
  = providerCalls w ++ audio_run_calls env w client.
Proof.
  destruct w as [ab ch ev td em pc], env as [fs t1 t2 t3 mk wr ul tr co sp].
  cbn [audioBuffers] in accumulated.
  run_handler. rewrite accumulated. cbv beta iota.
  audio_run_cases td mk wr tr co sp ul;
    rewrite ?history_after_user_turn; cbv beta iota delta [default];
    destruct (ch !! client);
    rewrite <- ?app_assoc, ?app_nil_r; reflexivity.
Qed.

Lemma audio_complete_temp_file :
  save_result env w = Returned tt ->
  temp_file (exec (AudioGateway.handleAudioComplete env client) w)
            (AudioGateway.tempFileName client (file_stamp env))
  = if audio_run_ok env w then None
    else Some (List.concat (chunk :: chunks)).
Proof.
  destruct w as [ab ch ev td em pc], env as [fs t1 t2 t3 mk wr ul tr co sp].
  cbn [audioBuffers] in accumulated.
  run_handler. rewrite accumulated. cbv beta iota.
  audio_run_cases td mk wr tr co sp ul; done.
Qed.

Lemma audio_complete_accumulator :
  audioBuffers (exec (AudioGateway.handleAudioComplete env client) w)
  = if audio_run_ok env w then <[client := []]> (audioBuffers w)
    else audioBuffers w.
Proof.
  destruct w as [ab ch ev td em pc], env as [fs t1 t2 t3 mk wr ul tr co sp].
  cbn [audioBuffers] in accumulated.
  run_handler. rewrite accumulated. cbv beta iota.
  audio_run_cases td mk wr tr co sp ul; reflexivity.
Qed.

Lemma audio_complete_evaluations :
  evaluations (exec (AudioGateway.handleAudioComplete env client) w)
  = evaluations w.
Proof.
  destruct w as [ab ch ev td em pc], env as [fs t1 t2 t3 mk wr ul tr co sp].
  cbn [audioBuffers] in accumulated.
  run_handler. rewrite accumulated. cbv beta iota.
  audio_run_cases td mk wr tr co sp ul; reflexivity.
Qed.
End AudioComplete.

(* ================================================================== *)
(** * AudioGateway: text and start-interview runs *)
(* ================================================================== *)

Section ReplyRuns.
Variables (env : Env) (client : list N) (w : World).

Lemma text_message_emitted text :
  emitted (exec (AudioGateway.handleTextMessage env client (Some text)) w)
  = emitted w ++ List.map (pair client)
      (reply_run_events (utf16 "Failed to generate response") env).
Proof.
  destruct w as [ab ch ev td em pc], env as [fs t1 t2 t3 mk wr ul tr co sp].
  destruct co as [[|[]]|], sp; run_handler;
    rewrite <- ?app_assoc; reflexivity.
Qed.

Lemma text_message_calls text :
  providerCalls
    (exec (AudioGateway.handleTextMessage env client (Some text)) w)
  = providerCalls w ++
      reply_run_calls
        (messages_create ChatService.MODEL 500
           (Some ChatService.getSystemPrompt)
           (ChatService.getHistory w client ++ [mkMessage user text])) env.
Proof.
  destruct w as [ab ch ev td em pc], env as [fs t1 t2 t3 mk wr ul tr co sp].
  destruct co as [[|[]]|], sp; run_handler;
    rewrite ?history_after_user_turn; cbv beta iota delta [default];
    destruct (ch !! client); rewrite <- ?app_assoc; reflexivity.
Qed.

Lemma start_interview_emitted :
  emitted (exec (AudioGateway.handleStartInterview env client) w)
  = emitted w ++ List.map (pair client)
      (reply_run_events (utf16 "Failed to start interview") env).
Proof.
  destruct w as [ab ch ev td em pc], env as [fs t1 t2 t3 mk wr ul tr co sp].
  destruct co as [[|[]]|], sp; run_handler;
    rewrite <- ?app_assoc; reflexivity.
Qed.

Lemma start_interview_calls :
  providerCalls (exec (AudioGateway.handleStartInterview env client) w)
  = providerCalls w ++
      reply_run_calls
        (messages_create ChatService.MODEL 500
           (Some ChatService.getSystemPrompt)
           [mkMessage user ChatService.OPENING]) env.
Proof.
  destruct w as [ab ch ev td em pc], env as [fs t1 t2 t3 mk wr ul tr co sp].
  destruct co as [[|[]]|], sp; run_handler;
    rewrite <- ?app_assoc; reflexivity.
Qed.
End ReplyRuns.

(* ================================================================== *)
(** * EvaluationService *)
(* ================================================================== *)

Lemma parseEvaluation_total text :
  EvaluationService.parseEvaluation text = Returned (parsed_or_fallback text).
Proof.
  unfold EvaluationService.parseEvaluation, parsed_or_fallback, try_catch.
  by destruct (EvaluationService.parseEvaluation_try text).
Qed.

(** What the body of [parseEvaluation] returns has passed both checks. *)
Lemma parseEvaluation_try_checked text parsed :
  EvaluationService.parseEvaluation_try text = Returned parsed ->
  truthy (get_property parsed EvaluationService.SCORES) = true /\
  truthy (get_property parsed EvaluationService.COMMENTS) = true.
Proof.
  unfold EvaluationService.parseEvaluation_try.
  destruct (string_match json_block_regex text) as [block|]; [|done].
  destruct (JSON_parse block) as [v|e]; [|done].
  destruct (truthy (get_property v EvaluationService.SCORES)) eqn:Hs,
           (truthy (get_property v EvaluationService.COMMENTS)) eqn:Hc;
    cbn [negb orb]; try done.
  by intros [= <-].
Qed.

Lemma fallback_checked :
  truthy (get_property EvaluationService.fallback EvaluationService.SCORES)
    = true /\
  truthy (get_property EvaluationService.fallback EvaluationService.COMMENTS)
    = true.
Proof. split; vm_compute; reflexivity. Qed.

Lemma parsed_or_fallback_scores text :
  truthy (get_property (parsed_or_fallback text) EvaluationService.SCORES)
  = true.
Proof.
  unfold parsed_or_fallback.
  destruct (EvaluationService.parseEvaluation_try text) as [v|e] eqn:H.
  - by destruct (parseEvaluation_try_checked _ _ H).
  - apply fallback_checked.
Qed.

Lemma lookup_last_snoc_other key k v props :
  k <> key -> lookup_last key (props ++ [(k, v)]) = lookup_last key props.
Proof.
  intros Hne. induction props as [|[k' v'] props IH];
    cbn [app lookup_last].
  - by destruct (decide (k = key)).
  - by rewrite IH.
Qed.

(** Stamping a record that passed the check leaves its scores readable:
    the [console.log] of [evaluateCandidate] cannot throw. *)
Lemma stamped_scores_readable v now :
  truthy (get_property v EvaluationService.SCORES) = true ->
  get_property (EvaluationService.stamp v now) EvaluationService.SCORES
    = get_property v EvaluationService.SCORES /\
  member_access
    (get_property (EvaluationService.stamp v now) EvaluationService.SCORES)
    = Returned tt.
Proof.
  intros Ht.
  assert (get_property (EvaluationService.stamp v now) EvaluationService.SCORES
          = get_property v EvaluationService.SCORES) as ->.
  { destruct v; try done.
    unfold EvaluationService.stamp. cbn [own_properties get_property].
    apply lookup_last_snoc_other. by vm_compute. }
  split; [done|].
  by destruct (get_property v EvaluationService.SCORES) as [[]|].
Qed.

Section Evaluate.
Variables (env : Env) (client : list N) (history : list Message).
Variable (w : World).

(** [evaluateCandidate] sends its request whatever the history is; it
    throws the fixed error when the request fails, and otherwise stores
    and returns the stamped record. *)
Lemma evaluateCandidate_run :
  EvaluationService.evaluateCandidate env client history w =
  match reply_of (completion_result env) with
  | Thrown _ =>
    (Thrown (mkError EvaluationService.EVALUATION_FAILED),
     set_providerCalls (fun log => log ++ [evaluation_request history]) w)
  | Returned text =>
    (Returned (EvaluationService.stamp (parsed_or_fallback text)
                 (evaluated_at env)),
     set_evaluations
       <[client := EvaluationService.stamp (parsed_or_fallback text)
                     (evaluated_at env)]>
       (set_providerCalls (fun log => log ++ [evaluation_request history])
          w))
  end.
Proof.
  destruct w as [ab ch ev td em pc], env as [fs t1 t2 t3 mk wr ul tr co sp].
  destruct co as [[|[]]|]; run_handler; try reflexivity.
  all: rewrite parseEvaluation_total; cbv beta iota.
  all: rewrite (proj2 (stamped_scores_readable _ _
                         (parsed_or_fallback_scores _))).
  all: reflexivity.
Qed.

(** The end-interview handler on a session that has a history. *)
Lemma end_interview_run :
  ChatService.getHistory w client = history -> history <> [] ->
  AudioGateway.handleEndInterview env client w =
  match reply_of (completion_result env) with
  | Thrown _ =>
    (Returned tt,
     set_emitted
       (fun log => log ++
          [(client, evaluation_error EvaluationService.EVALUATION_FAILED)])
       (set_providerCalls (fun log => log ++ [evaluation_request history])
          w))
  | Returned text =>
    (Returned tt,
     set_emitted
       (fun log => log ++
          [(client,
            evaluation_complete
              (EvaluationService.stamp (parsed_or_fallback text)
                 (evaluated_at env)))])
       (set_evaluations
          <[client := EvaluationService.stamp (parsed_or_fallback text)
                        (evaluated_at env)]>
          (set_providerCalls
             (fun log => log ++ [evaluation_request history]) w)))
  end.
Proof.
  intros Hh Hne. unfold AudioGateway.handleEndInterview.
  unfold try_ at 1. unfold bind at 1. unfold gets at 1.
  rewrite Hh. destruct history as [|m rest] eqn:E; [done|].
  cbn [length Nat.eqb]. rewrite <- E.
  unfold bind at 1. rewrite evaluateCandidate_run.
  destruct (reply_of (completion_result env)) as [text|e].
  - unfold bind at 1, settle at 1.
    rewrite (proj2 (stamped_scores_readable _ _
                      (parsed_or_fallback_scores _))).
    reflexivity.
  - reflexivity.
Qed.

(** The end-interview handler on a session without history: the guard
    answers, and nothing else happens. *)
Lemma end_interview_no_history :
  ChatService.getHistory w client = [] ->
  AudioGateway.handleEndInterview env client w =
  (Returned tt,
   set_emitted
     (fun log => log ++ [(client, evaluation_error AudioGateway.NO_HISTORY)])
     w).
Proof.
  intros Hh. unfold AudioGateway.handleEndInterview.
  unfold try_ at 1. unfold bind at 1. unfold gets at 1.
  rewrite Hh. reflexivity.
Qed.
End Evaluate.

(* ================================================================== *)
(** * The conversation history (claims C5 and C9) *)
(* ================================================================== *)

Lemma history_after_successful_chats_witness :
  ChatService.getHistory world0 session_a = [] /\
  fst (chat_calls session_a two_calls world0) = List.map Returned two_replies /\
  let history :=
    ChatService.getHistory (snd (chat_calls session_a two_calls world0))
      session_a in
  history = alternate (List.map fst two_calls) two_replies /\
  length history = (2 * length two_calls)%nat.
Proof.
  split; [reflexivity|]. split; [vm_compute; reflexivity|].
  apply history_after_successful_chats; vm_compute; reflexivity.
Defined.

(** C9: when the provider call inside [chat] fails, the error reaches the
    caller unchanged, and the user turn pushed before the call stays: the
    history is one turn longer than before and ends in that turn. *)
Theorem chat_failure_keeps_user_turn clientId userMessage e w :
  exists w',
    ChatService.chat (Thrown e) clientId userMessage w = (Thrown e, w') /\
    ChatService.getHistory w' clientId
      = ChatService.getHistory w clientId ++ [mkMessage user userMessage] /\
    length (ChatService.getHistory w' clientId)
      = S (length (ChatService.getHistory w clientId)) /\
    last (ChatService.getHistory w' clientId)
      = Some (mkMessage user userMessage).
Proof.
  destruct (chat_rejected clientId userMessage e w) as (w' & Hrun & Hh & _).
  exists w'. rewrite Hh. split_and!; [done|done| |].
  - rewrite length_app. cbn [length]. lia.
  - apply last_snoc.
Qed.

(* ================================================================== *)
(** * The audio pipeline (claims C3, C6 and C8) *)
(* ================================================================== *)

(** C8 as stated fails when "empty" counts bytes: session A has sent one
    chunk that holds no byte, so that nothing is buffered, and
    audio-complete still runs the whole pipeline and emits its three
    events. *)
Lemma zero_bytes_are_processed :
  audioBuffers silent !! session_a = Some [[]] /\
  List.concat [[]] = @nil N /\
  emitted silent = [] /\
  emitted (exec (AudioGateway.handleAudioComplete env_up session_a) silent)
  = [ (session_a,
       transcription (utf16 "I built a billing system.")
         (transcription_time env_up));
      (session_a,
       ai_response (utf16 "What was the hardest part?")
         (response_time env_up));
      (session_a, ai_audio (base64 [73; 68; 51])) ].
Proof. split_and!; vm_compute; reflexivity. Qed.

(** C8, amended: the guard counts chunks, not bytes.  When the
    accumulator of a session holds no chunk (or there is none),
    audio-complete does nothing: the handler returns, the state is the one
    it started in, and so no event of any kind has been emitted. *)
Theorem audio_complete_without_audio env client w :
  audioBuffers w !! client = Some [] \/ audioBuffers w !! client = None ->
  AudioGateway.handleAudioComplete env client w = (Returned tt, w) /\
  emitted (exec (AudioGateway.handleAudioComplete env client) w) = emitted w.
Proof.
  intros H.
  assert (AudioGateway.handleAudioComplete env client w = (Returned tt, w))
    as Hrun.
  { unfold AudioGateway.handleAudioComplete, bind at 1, gets at 1.
    by destruct H as [-> | ->]. }
  unfold exec. by rewrite Hrun.
Qed.

Lemma audio_complete_without_audio_witness :
  (audioBuffers connected !! session_a = Some [] \/
   audioBuffers connected !! session_a = None) /\
  AudioGateway.handleAudioComplete env_up session_a connected
    = (Returned tt, connected) /\
  emitted (exec (AudioGateway.handleAudioComplete env_up session_a) connected)
    = emitted connected.
Proof.
  assert (audioBuffers connected !! session_a = Some [] \/
          audioBuffers connected !! session_a = None) as H.
  { left. vm_compute. reflexivity. }
  split; [exact H|].
  exact (audio_complete_without_audio env_up session_a connected H).
Defined.

Lemma audio_run_names env w :
  (audio_run_ok env w = true ->
   List.map event_name (audio_run_events env w)
   = [utf16 "transcription"; utf16 "ai-response"; utf16 "ai-audio"]) /\
  (audio_run_ok env w = false ->
   exists k, (k <= 3)%nat /\
     List.map event_name (audio_run_events env w)
     = take k [utf16 "transcription"; utf16 "ai-response"; utf16 "ai-audio"]
         ++ [utf16 "processing-error"]).
Proof.
  unfold audio_run_ok, audio_run_events.
  destruct (save_result env w) as [[]|];
    [destruct (transcription_result env);
      [destruct (reply_of (completion_result env));
        [destruct (speech_result env);
          [destruct (unlink_result env) as [[]|]|]|]|]|].
  all: split; intros H; try discriminate H.
  - reflexivity.
  - exists 3%nat. split; [lia|reflexivity].
  - exists 2%nat. split; [lia|reflexivity].
  - exists 1%nat. split; [lia|reflexivity].
  - exists 0%nat. split; [lia|reflexivity].
  - exists 0%nat. split; [lia|reflexivity].
Qed.

(** C6: a run of the audio pipeline on a non-empty accumulator emits
    [transcription], [ai-response], [ai-audio], in that order and nothing
    else, when every stage succeeds; when a stage fails, the stages after it
    are not run (no request of theirs is sent), the events of the stages
    before it stay emitted, and exactly one [processing-error] follows
    them. *)
Theorem audio_run_event_order env client w chunk chunks :
  audioBuffers w !! client = Some (chunk :: chunks) ->
  let w' := exec (AudioGateway.handleAudioComplete env client) w in
  let events := audio_run_events env w in
  emitted w' = emitted w ++ List.map (pair client) events /\
  providerCalls w' = providerCalls w ++ audio_run_calls env w client /\
  (audio_run_ok env w = true ->
   List.map event_name events
   = [utf16 "transcription"; utf16 "ai-response"; utf16 "ai-audio"]) /\
  (audio_run_ok env w = false ->
   exists k, (k <= 3)%nat /\
     List.map event_name events
     = take k [utf16 "transcription"; utf16 "ai-response"; utf16 "ai-audio"]
         ++ [utf16 "processing-error"]).
Proof.
  intros Hbuf. cbv zeta. split_and!.
  - by eapply audio_complete_emitted.
  - by eapply audio_complete_calls.
  - apply audio_run_names.
  - apply audio_run_names.
Qed.

Lemma audio_run_event_order_witness :
  audioBuffers recording !! session_a = Some [[26; 69; 223; 163]] /\
  emitted (exec (AudioGateway.handleAudioComplete env_no_chat session_a)
             recording)
  = emitted recording ++
      List.map (pair session_a) (audio_run_events env_no_chat recording).
Proof.
  assert (audioBuffers recording !! session_a = Some [[26; 69; 223; 163]])
    as H by (vm_compute; reflexivity).
  split; [exact H|].
  exact (proj1 (audio_run_event_order env_no_chat session_a recording _ _ H)).
Defined.

(** C3, what the code does: the file written for a run is removed only
    when every later step succeeds; when transcription, chat or synthesis
    fails, the run ends with the file still in the temporary directory (and
    the accumulator still full). *)
Theorem temp_file_left_after_failure env client w chunk chunks :
  audioBuffers w !! client = Some (chunk :: chunks) ->
  save_result env w = Returned tt ->
  let w' := exec (AudioGateway.handleAudioComplete env client) w in
  let name := AudioGateway.tempFileName client (file_stamp env) in
  (audio_run_ok env w = true -> temp_file w' name = None) /\
  (audio_run_ok env w = false ->
   temp_file w' name = Some (List.concat (chunk :: chunks)) /\
   audioBuffers w' = audioBuffers w).
Proof.
  intros Hbuf Hsave. cbv zeta.
  rewrite (audio_complete_temp_file _ _ _ _ _ Hbuf Hsave).
  rewrite (audio_complete_accumulator _ _ _ _ _ Hbuf).
  by split; intros ->.
Qed.

Lemma temp_file_left_after_failure_witness :
  audioBuffers recording !! session_a = Some [[26; 69; 223; 163]] /\
  save_result env_no_transcription recording = Returned tt /\
  audio_run_ok env_no_transcription recording = false /\
  temp_file
    (exec (AudioGateway.handleAudioComplete env_no_transcription session_a)
       recording)
    (AudioGateway.tempFileName session_a (file_stamp env_no_transcription))
  = Some [26; 69; 223; 163].
Proof.
  assert (audioBuffers recording !! session_a = Some [[26; 69; 223; 163]])
    as H1 by (vm_compute; reflexivity).
  assert (save_result env_no_transcription recording = Returned tt)
    as H2 by reflexivity.
  assert (audio_run_ok env_no_transcription recording = false)
    as H3 by reflexivity.
  split_and!; [exact H1|exact H2|exact H3|].
  exact (proj1 (proj2 (temp_file_left_after_failure env_no_transcription
                         session_a recording _ _ H1 H2) H3)).
Defined.

(* ================================================================== *)
(** * Disconnect (claim C4) *)
(* ================================================================== *)

(** C4 as stated fails: session A has talked, disconnects, and its two
    turns are still what [getHistory] returns, while its accumulator is
    gone. *)
Lemma disconnect_keeps_history :
  let w' := exec (AudioGateway.handleDisconnect session_a) interviewed in
  audioBuffers w' !! session_a = None /\
  ChatService.getHistory w' session_a
  = [ mkMessage user (utf16 "I built a billing system.");
      mkMessage assistant (utf16 "What was the hardest part?") ].
Proof. split; vm_compute; reflexivity. Qed.

(** C4, amended: disconnect discards the accumulator of the session and
    nothing else: the history of every session, that one included, every
    evaluation record, and the accumulators of the other sessions are
    what they were, and nothing is emitted or requested. *)
Theorem disconnect_discards_accumulator_only client w :
  let w' := exec (AudioGateway.handleDisconnect client) w in
  fst (AudioGateway.handleDisconnect client w) = Returned tt /\
  (forall session,
     audioBuffers w' !! session
     = if decide (session = client) then None else audioBuffers w !! session) /\
  (forall session,
     ChatService.getHistory w' session = ChatService.getHistory w session) /\
  (forall session,
     EvaluationService.getEvaluation w' session
     = EvaluationService.getEvaluation w session) /\
  tempDir w' = tempDir w /\
  emitted w' = emitted w /\
  providerCalls w' = providerCalls w.
Proof.
  destruct w as [ab ch ev td em pc]. cbv zeta. run_handler.
  split_and!; try done.
  intros session. destruct (decide (session = client)) as [->|Hne].
  - apply lookup_delete_eq.
  - by apply lookup_delete_ne.
Qed.

(* ================================================================== *)
(** * Provider failures (claim C7) *)
(* ================================================================== *)

(** C7 as stated fails on the evaluation path: session A has a history,
    the chat provider rejects the grading request with a rate-limit
    message, and the [evaluation-error] that goes out carries the fixed
    text of the service instead. *)
Lemma evaluation_error_drops_provider_message :
  completion_result env_no_chat = Thrown rate_limited /\
  emitted (exec (AudioGateway.handleEndInterview env_no_chat session_a)
             interviewed)
  = emitted interviewed ++
      [(session_a, evaluation_error EvaluationService.EVALUATION_FAILED)] /\
  error_field (evaluation_error EvaluationService.EVALUATION_FAILED)
  <> Some (message rate_limited).
Proof.
  split; [reflexivity|]. split; [vm_compute; reflexivity|].
  vm_compute. discriminate.
Qed.

Lemma audio_failure_reported env client w chunk chunks k e :
  audioBuffers w !! client = Some (chunk :: chunks) ->
  save_result env w = Returned tt ->
  audio_provider_failure env = Some (k, e) ->
  let w' := exec (AudioGateway.handleAudioComplete env client) w in
  (exists sent,
     emitted w' = emitted w ++ sent ++
       [(client, processing_error (utf16 "Failed to process audio")
                   (message e))]) /\
  (exists calls,
     providerCalls w' = providerCalls w ++ calls /\ length calls = k).
Proof.
  intros Hbuf Hsave Hfail. cbv zeta.
  rewrite (audio_complete_emitted _ _ _ _ _ Hbuf).
  rewrite (audio_complete_calls _ _ _ _ _ Hbuf).
  unfold audio_run_events, audio_run_calls, audio_provider_failure in *.
  rewrite Hsave.
  destruct (transcription_result env) as [text|e1].
  2: { injection Hfail as <- <-. split; [by exists []|by eexists]. }
  destruct (reply_of (completion_result env)) as [reply|e2].
  2: { injection Hfail as <- <-. split; [by eexists [_]|by eexists]. }
  destruct (speech_result env) as [audio|e3]; [done|].
  injection Hfail as <- <-. split; [by eexists [_; _]|by eexists].
Qed.

Lemma reply_run_failure_reported what request env k e :
  reply_provider_failure env = Some (k, e) ->
  (exists sent,
     reply_run_events what env = sent ++ [processing_error what (message e)])
  /\ length (reply_run_calls request env) = k.
Proof.
  unfold reply_provider_failure, reply_run_events, reply_run_calls.
  destruct (reply_of (completion_result env)) as [reply|e1].
  2: { intros [= <- <-]. split; [by exists []|done]. }
  destruct (speech_result env) as [audio|e2]; [done|].
  intros [= <- <-]. split; [by eexists [_]|done].
Qed.

(** C7, amended: a failed provider call is reported once and not tried
    again.  In the audio, text and start-interview runs the
    [processing-error] that ends the run carries the message of the error
    the provider call failed with, and the run has sent one request per
    stage up to the failing one.  In the evaluation run the
    [evaluation-error] carries the fixed text of the service, whatever the
    provider's message was; the grading request was sent once and no record
    was stored. *)
Theorem provider_failure_reported env client w :
  (forall chunk chunks k e,
     audioBuffers w !! client = Some (chunk :: chunks) ->
     save_result env w = Returned tt ->
     audio_provider_failure env = Some (k, e) ->
     let w' := exec (AudioGateway.handleAudioComplete env client) w in
     (exists sent,
        emitted w' = emitted w ++ sent ++
          [(client, processing_error (utf16 "Failed to process audio")
                      (message e))]) /\
     (exists calls,
        providerCalls w' = providerCalls w ++ calls /\ length calls = k)) /\
  (forall text k e,
     reply_provider_failure env = Some (k, e) ->
     let w' :=
       exec (AudioGateway.handleTextMessage env client (Some text)) w in
     (exists sent,
        emitted w' = emitted w ++ sent ++
          [(client, processing_error (utf16 "Failed to generate response")
                      (message e))]) /\
     (exists calls,
        providerCalls w' = providerCalls w ++ calls /\ length calls = k)) /\
  (forall k e,
     reply_provider_failure env = Some (k, e) ->
     let w' := exec (AudioGateway.handleStartInterview env client) w in
     (exists sent,
        emitted w' = emitted w ++ sent ++
          [(client, processing_error (utf16 "Failed to start interview")
                      (message e))]) /\
     (exists calls,
        providerCalls w' = providerCalls w ++ calls /\ length calls = k)) /\
  (forall e,
     ChatService.getHistory w client <> [] ->
     reply_of (completion_result env) = Thrown e ->
     let w' := exec (AudioGateway.handleEndInterview env client) w in
     emitted w' = emitted w ++
       [(client, evaluation_error EvaluationService.EVALUATION_FAILED)] /\
     providerCalls w' = providerCalls w ++
       [evaluation_request (ChatService.getHistory w client)] /\
     evaluations w' = evaluations w).
Proof.
  split_and!.
  - intros. by eapply audio_failure_reported.
  - intros text k e Hfail. cbv zeta.
    rewrite text_message_emitted, text_message_calls.
    destruct (reply_run_failure_reported
                (utf16 "Failed to generate response")
                (messages_create ChatService.MODEL 500
                   (Some ChatService.getSystemPrompt)
                   (ChatService.getHistory w client ++ [mkMessage user text]))
                env k e Hfail) as [[sent Hsent] Hcalls].
    rewrite Hsent. split.
    + exists (List.map (pair client) sent). by rewrite map_app.
    + by eexists.
  - intros k e Hfail. cbv zeta.
    rewrite start_interview_emitted, start_interview_calls.
    destruct (reply_run_failure_reported
                (utf16 "Failed to start interview")
                (messages_create ChatService.MODEL 500
                   (Some ChatService.getSystemPrompt)
                   [mkMessage user ChatService.OPENING])
                env k e Hfail) as [[sent Hsent] Hcalls].
    rewrite Hsent. split.
    + exists (List.map (pair client) sent). by rewrite map_app.
    + by eexists.
  - intros e Hne Hfail. cbv zeta. unfold exec.
    rewrite (end_interview_run env client _ w eq_refl Hne), Hfail.
    by destruct w.
Qed.

Lemma provider_failure_reported_witness :
  ChatService.getHistory interviewed session_a <> [] /\
  reply_of (completion_result env_no_chat) = Thrown rate_limited /\
  emitted (exec (AudioGateway.handleEndInterview env_no_chat session_a)
             interviewed)
  = emitted interviewed ++
      [(session_a, evaluation_error EvaluationService.EVALUATION_FAILED)].
Proof.
  assert (ChatService.getHistory interviewed session_a <> []) as H1
    by (vm_compute; discriminate).
  assert (reply_of (completion_result env_no_chat) = Thrown rate_limited)
    as H2 by reflexivity.
  split_and!; [exact H1|exact H2|].
  exact (proj1 (proj2 (proj2 (proj2
           (provider_failure_reported env_no_chat session_a interviewed)))
           rate_limited H1 H2)).
Defined.

(* ================================================================== *)
(** * Evaluation (claims C1, C2 and C10) *)
(* ================================================================== *)

(** C1 as stated fails: called with an empty history while the provider
    answers, [evaluateCandidate] returns a record and stores it under the
    session id. *)
Lemma evaluateCandidate_accepts_empty_history :
  match EvaluationService.evaluateCandidate env_graded session_a [] world0 with
  | (Returned record, w') =>
    EvaluationService.getEvaluation w' session_a = Some record
  | (Thrown _, _) => False
  end.
Proof. vm_compute. reflexivity. Qed.

(** C1, amended: the guard against an empty history is the gateway's.  On
    end-interview for a session without history the handler emits
    [evaluation-error], sends no request and stores no record.
    [evaluateCandidate] itself does not look at the history: with an empty
    one it throws, storing nothing, exactly when its provider call fails,
    and returns and stores a record when the provider answers. *)
Theorem empty_history_guarded_by_gateway env client w :
  ChatService.getHistory w client = [] ->
  (let w' := exec (AudioGateway.handleEndInterview env client) w in
   emitted w' = emitted w ++
     [(client, evaluation_error AudioGateway.NO_HISTORY)] /\
   evaluations w' = evaluations w /\
   providerCalls w' = providerCalls w) /\
  (let (outcome, w') :=
     EvaluationService.evaluateCandidate env client [] w in
   match reply_of (completion_result env) with
   | Thrown _ =>
     outcome = Thrown (mkError EvaluationService.EVALUATION_FAILED) /\
     evaluations w' = evaluations w
   | Returned text =>
     outcome = Returned (EvaluationService.stamp (parsed_or_fallback text)
                           (evaluated_at env)) /\
     EvaluationService.getEvaluation w' client
     = Some (EvaluationService.stamp (parsed_or_fallback text)
               (evaluated_at env))
   end).
Proof.
  intros Hh. split.
  - cbv zeta. unfold exec. rewrite (end_interview_no_history _ _ _ Hh).
    by destruct w.
  - rewrite evaluateCandidate_run.
    destruct (reply_of (completion_result env)) as [text|e].
    + split; [done|]. destruct w.
      unfold EvaluationService.getEvaluation. cbn [set_evaluations evaluations].
      apply lookup_insert_eq.
    + by destruct w.
Qed.

Lemma empty_history_guarded_by_gateway_witness :
  ChatService.getHistory connected session_a = [] /\
  emitted (exec (AudioGateway.handleEndInterview env_graded session_a)
             connected)
  = emitted connected ++
      [(session_a, evaluation_error AudioGateway.NO_HISTORY)].
Proof.
  assert (ChatService.getHistory connected session_a = []) as H
    by (vm_compute; reflexivity).
  split; [exact H|].
  exact (proj1 (proj1
           (empty_history_guarded_by_gateway env_graded session_a connected H))).
Defined.

(** C2 as stated fails: the block of this reply parses and has both a
    [scores] and a [comments] field, yet [parseEvaluation] answers with
    the fallback record, which is not the parsed data. *)
Lemma parseEvaluation_rejects_falsy_field :
  let parsed :=
    JObject
      [ (EvaluationService.SCORES, JNumber (number_of_N 0));
        (EvaluationService.COMMENTS,
           JObject [(utf16 "summary", JString (utf16 "fine"))]) ] in
  first_brace_through_last_brace reply_zero_scores = Some reply_zero_scores /\
  JSON_parse reply_zero_scores = Returned parsed /\
  has_property parsed EvaluationService.SCORES = true /\
  has_property parsed EvaluationService.COMMENTS = true /\
  EvaluationService.parseEvaluation reply_zero_scores
    = Returned EvaluationService.fallback /\
  parsed <> EvaluationService.fallback.
Proof.
  cbv zeta. split_and!; try (vm_compute; reflexivity).
  vm_compute. discriminate.
Qed.

(** C2, amended: when the text from the first [{] through the last [}]
    exists, parses, and holds truthy values (not [null], [false], [0] or
    the empty string) under both [scores] and [comments],
    [parseEvaluation] returns the parsed data unchanged; in every other
    case (no such text, a parse failure, a field missing or falsy) it
    returns exactly the fallback record; it never throws. *)
Theorem parseEvaluation_spec reply :
  (forall block parsed,
     first_brace_through_last_brace reply = Some block ->
     JSON_parse block = Returned parsed ->
     truthy (get_property parsed EvaluationService.SCORES) = true ->
     truthy (get_property parsed EvaluationService.COMMENTS) = true ->
     EvaluationService.parseEvaluation reply = Returned parsed) /\
  (first_brace_through_last_brace reply = None ->
   EvaluationService.parseEvaluation reply
     = Returned EvaluationService.fallback) /\
  (forall block e,
     first_brace_through_last_brace reply = Some block ->
     JSON_parse block = Thrown e ->
     EvaluationService.parseEvaluation reply
       = Returned EvaluationService.fallback) /\
  (forall block parsed,
     first_brace_through_last_brace reply = Some block ->
     JSON_parse block = Returned parsed ->
     truthy (get_property parsed EvaluationService.SCORES) = false \/
     truthy (get_property parsed EvaluationService.COMMENTS) = false ->
     EvaluationService.parseEvaluation reply
       = Returned EvaluationService.fallback) /\
  (exists record, EvaluationService.parseEvaluation reply = Returned record).
Proof.
  unfold EvaluationService.parseEvaluation,
    EvaluationService.parseEvaluation_try.
  rewrite string_match_json_block.
  split_and!.
  - intros block parsed -> -> -> ->. reflexivity.
  - intros ->. reflexivity.
  - intros block e -> ->. reflexivity.
  - intros block parsed -> -> [-> | ->]; [reflexivity|].
    by rewrite orb_true_r.
  - destruct (first_brace_through_last_brace reply) as [block|];
      [|by eexists].
    destruct (JSON_parse block) as [parsed|e]; [|by eexists].
    destruct (negb _ || negb _); by eexists.
Qed.

Lemma parseEvaluation_spec_witness :
  first_brace_through_last_brace reply_zero_scores = Some reply_zero_scores /\
  JSON_parse reply_zero_scores
  = Returned
      (JObject
         [ (EvaluationService.SCORES, JNumber (number_of_N 0));
           (EvaluationService.COMMENTS,
              JObject [(utf16 "summary", JString (utf16 "fine"))]) ]) /\
  EvaluationService.parseEvaluation reply_zero_scores
  = Returned EvaluationService.fallback.
Proof.
  assert (first_brace_through_last_brace reply_zero_scores
          = Some reply_zero_scores) as H1 by (vm_compute; reflexivity).
  assert (JSON_parse reply_zero_scores
          = Returned
              (JObject
                 [ (EvaluationService.SCORES, JNumber (number_of_N 0));
                   (EvaluationService.COMMENTS,
                      JObject [(utf16 "summary", JString (utf16 "fine"))]) ]))
    as H2 by (vm_compute; reflexivity).
  split_and!; [exact H1|exact H2|].
  refine (proj1 (proj2 (proj2 (proj2 (parseEvaluation_spec reply_zero_scores))))
            _ _ H1 H2 _).
  left. vm_compute. reflexivity.
Defined.

(** C10: the check of [parseEvaluation] stops at the truthiness of the two
    fields.  This reply has prose around a block whose [scores] hold a
    number outside 1..10 and a string, and whose [comments] is [true];
    [parseEvaluation] returns that data, not the fallback record. *)
Theorem parseEvaluation_accepts_malformed_scores :
  exists parsed,
    EvaluationService.parseEvaluation reply_odd_scores = Returned parsed /\
    parsed <> EvaluationService.fallback /\
    has_property parsed EvaluationService.SCORES = true /\
    has_property parsed EvaluationService.COMMENTS = true /\
    get_property parsed EvaluationService.COMMENTS = Some (JBool true) /\
    scores_shape (get_property parsed EvaluationService.SCORES) = false /\
    scores_shape
      (get_property EvaluationService.fallback EvaluationService.SCORES)
    = true.
Proof.
  exists (JObject
    [ (EvaluationService.SCORES,
         JObject [ (utf16 "communication", JNumber (number_of_N 42));
                   (utf16 "technical", JString (utf16 "high")) ]);
      (EvaluationService.COMMENTS, JBool true) ]).
  split_and!; try (vm_compute; reflexivity).
  vm_compute. discriminate.
Qed.
(* ================================================================== *)
(** * Further properties: the audio accumulator *)
(* ================================================================== *)

Lemma audio_data_appends client payload w acc :
  audioBuffers w !! client = Some acc ->
  audioBuffers (exec (AudioGateway.handleAudioData client payload) w) !! client
  = Some (acc ++ [payload]).
Proof.
  destruct w as [ab ch ev td em pc]. cbn [audioBuffers]. intros H.
  run_handler. rewrite H. cbv beta iota.
  by rewrite lookup_alter_eq, H.
Qed.

Lemma audio_data_dropped client payload w :
  audioBuffers w !! client = None ->
  AudioGateway.handleAudioData client payload w = (Returned tt, w).
Proof.
  destruct w as [ab ch ev td em pc]. cbn [audioBuffers]. intros H.
  run_handler. by rewrite H.
Qed.

Lemma receive_chunks_appends client payloads : forall w acc,
  audioBuffers w !! client = Some acc ->
  audioBuffers (receive_chunks client payloads w) !! client
  = Some (acc ++ payloads).
Proof.
  induction payloads as [|p ps IH]; intros w acc H; cbn [receive_chunks].
  - by rewrite app_nil_r.
  - rewrite (IH _ (acc ++ [p])); [by rewrite <- app_assoc|].
    by apply audio_data_appends.
Qed.

Lemma receive_chunks_dropped client payloads : forall w,
  audioBuffers w !! client = None ->
  receive_chunks client payloads w = w.
Proof.
  induction payloads as [|p ps IH]; intros w H; cbn [receive_chunks];
    [done|].
  unfold exec. rewrite (audio_data_dropped _ _ _ H). cbn [snd]. by apply IH.
Qed.

Lemma audio_complete_idle env client w :
  audioBuffers w !! client = Some [] \/ audioBuffers w !! client = None ->
  AudioGateway.handleAudioComplete env client w = (Returned tt, w).
Proof.
  intros H.
  unfold AudioGateway.handleAudioComplete, bind at 1, gets at 1.
  by destruct H as [-> | ->].
Qed.

(** X1: after a client has connected, the chunks it sends are kept in
    arrival order: the accumulator holds exactly the payloads received
    since the connection, whatever it held under that id before. *)
Theorem chunks_accumulate_in_order client payloads w :
  audioBuffers
    (receive_chunks client payloads
       (exec (AudioGateway.handleConnection client) w)) !! client
  = Some payloads.
Proof.
  rewrite (receive_chunks_appends _ _ _ []); [done|].
  destruct w as [ab ch ev td em pc]. run_handler. apply lookup_insert_eq.
Qed.

(** X2: once a client has disconnected, what still arrives for it is
    ignored: its audio chunks are dropped and an audio-complete does
    nothing, so the state stays the one the disconnect left. *)
Theorem audio_after_disconnect_ignored env client payloads w :
  let w1 := exec (AudioGateway.handleDisconnect client) w in
  AudioGateway.handleAudioComplete env client
    (receive_chunks client payloads w1)
  = (Returned tt, w1).
Proof.
  cbv zeta.
  assert (audioBuffers (exec (AudioGateway.handleDisconnect client) w)
            !! client = None) as H.
  { destruct w as [ab ch ev td em pc]. run_handler. apply lookup_delete_eq. }
  rewrite (receive_chunks_dropped _ _ _ H).
  apply audio_complete_idle. by right.
Qed.

(** X3: a run of the audio pipeline that went through empties the
    accumulator, so that an audio-complete arriving right after it does
    nothing: no event, no request, no change of state. *)
Theorem audio_complete_twice env env' client w chunk chunks :
  audioBuffers w !! client = Some (chunk :: chunks) ->
  audio_run_ok env w = true ->
  let w1 := exec (AudioGateway.handleAudioComplete env client) w in
  audioBuffers w1 !! client = Some [] /\
  AudioGateway.handleAudioComplete env' client w1 = (Returned tt, w1).
Proof.
  intros Hbuf Hok. cbv zeta.
  assert (audioBuffers (exec (AudioGateway.handleAudioComplete env client) w)
            !! client = Some []) as H.
  { rewrite (audio_complete_accumulator _ _ _ _ _ Hbuf), Hok.
    apply lookup_insert_eq. }
  split; [exact H|]. apply audio_complete_idle. by left.
Qed.

Lemma audio_complete_twice_witness :
  audioBuffers recording !! session_a = Some [[26; 69; 223; 163]] /\
  audio_run_ok env_up recording = true /\
  AudioGateway.handleAudioComplete env_no_chat session_a
    (exec (AudioGateway.handleAudioComplete env_up session_a) recording)
  = (Returned tt,
     exec (AudioGateway.handleAudioComplete env_up session_a) recording).
Proof.
  assert (audioBuffers recording !! session_a = Some [[26; 69; 223; 163]])
    as H1 by (vm_compute; reflexivity).
  assert (audio_run_ok env_up recording = true) as H2 by reflexivity.
  split_and!; [exact H1|exact H2|].
  exact (proj2 (audio_complete_twice env_up env_no_chat session_a recording
                  _ _ H1 H2)).
Defined.

(** X4: a run of the audio pipeline that failed keeps the accumulator, so
    the audio of the failed run is still there when the next recording
    arrives: the new chunks are appended to the old ones. *)
Theorem failed_run_audio_kept env client w chunk chunks more :
  audioBuffers w !! client = Some (chunk :: chunks) ->
  audio_run_ok env w = false ->
  audioBuffers
    (receive_chunks client more
       (exec (AudioGateway.handleAudioComplete env client) w)) !! client
  = Some ((chunk :: chunks) ++ more).
Proof.
  intros Hbuf Hok. apply receive_chunks_appends.
  by rewrite (audio_complete_accumulator _ _ _ _ _ Hbuf), Hok.
Qed.

Lemma failed_run_audio_kept_witness :
  audioBuffers recording !! session_a = Some [[26; 69; 223; 163]] /\
  audio_run_ok env_no_chat recording = false /\
  audioBuffers
    (receive_chunks session_a [[1; 2]]
       (exec (AudioGateway.handleAudioComplete env_no_chat session_a)
          recording)) !! session_a
  = Some ([[26; 69; 223; 163]] ++ [[1; 2]]).
Proof.
  assert (audioBuffers recording !! session_a = Some [[26; 69; 223; 163]])
    as H1 by (vm_compute; reflexivity).
  assert (audio_run_ok env_no_chat recording = false) as H2 by reflexivity.
  split_and!; [exact H1|exact H2|].
  exact (failed_run_audio_kept env_no_chat session_a recording _ _ [[1; 2]]
           H1 H2).
Defined.

(* ================================================================== *)
(** * Further properties: the conversation engine *)
(* ================================================================== *)

Lemma ensured_lookup_other (h : gmap (list N) (list Message)) client other :
  other <> client ->
  (match h !! client with
   | Some _ => h
   | None => <[client := []]> h
   end) !! other = h !! other.
Proof.
  intros Hne. destruct (h !! client); [done|].
  by rewrite lookup_insert_ne.
Qed.

Lemma ensured_lookup (h : gmap (list N) (list Message)) client :
  (match h !! client with
   | Some _ => h
   | None => <[client := []]> h
   end) !! client = Some (default [] (h !! client)).
Proof.
  destruct (h !! client) as [l|] eqn:E; [by rewrite E|].
  by rewrite lookup_insert_eq.
Qed.

Section ChatEffects.
Variables (completion : Outcome (list ContentBlock)).
Variables (client message_text : list N) (w : World).

(** [chat] sends one request, whose messages are the history so far and
    the new user turn. *)
Lemma chat_log :
  providerCalls (exec (ChatService.chat completion client message_text) w)
  = providerCalls w ++
      [messages_create ChatService.MODEL 500
         (Some ChatService.getSystemPrompt)
         (ChatService.getHistory w client ++ [mkMessage user message_text])].
Proof.
  destruct w as [ab ch ev td em pc].
  destruct completion as [[|[]]|]; run_handler;
    rewrite ?history_after_user_turn; cbv beta iota delta [default];
    destruct (ch !! client); reflexivity.
Qed.

Lemma chat_outcome :
  fst (ChatService.chat completion client message_text w)
  = reply_of completion.
Proof.
  destruct w as [ab ch ev td em pc].
  by destruct completion as [[|[]]|].
Qed.

Lemma chat_history :
  ChatService.getHistory
    (exec (ChatService.chat completion client message_text) w) client
  = ChatService.getHistory w client ++
      mkMessage user message_text ::
      match reply_of completion with
      | Returned reply => [mkMessage assistant reply]
      | Thrown _ => []
      end.
Proof.
  destruct w as [ab ch ev td em pc].
  destruct completion as [[|[]]|]; run_handler;
    rewrite ?history_after_user_turn; try rewrite lookup_alter_eq;
    rewrite ?history_after_user_turn;
    cbv beta iota delta [default fmap option_fmap option_map];
    destruct (ch !! client); rewrite <- ?app_assoc; reflexivity.
Qed.

Lemma chat_history_other other :
  other <> client ->
  ChatService.getHistory
    (exec (ChatService.chat completion client message_text) w) other
  = ChatService.getHistory w other.
Proof.
  intros Hne. destruct w as [ab ch ev td em pc].
  destruct completion as [[|[]]|]; run_handler;
    by rewrite ?lookup_alter_ne, ?ensured_lookup_other.
Qed.

Lemma start_log :
  providerCalls (exec (ChatService.startInterview completion client) w)
  = providerCalls w ++
      [messages_create ChatService.MODEL 500
         (Some ChatService.getSystemPrompt)
         [mkMessage user ChatService.OPENING]].
Proof.
  destruct w as [ab ch ev td em pc].
  by destruct completion as [[|[]]|].
Qed.

Lemma start_outcome :
  fst (ChatService.startInterview completion client w) = reply_of completion.
Proof.
  destruct w as [ab ch ev td em pc].
  by destruct completion as [[|[]]|].
Qed.

Lemma start_history :
  ChatService.getHistory
    (exec (ChatService.startInterview completion client) w) client
  = ChatService.getHistory w client ++
      match reply_of completion with
      | Returned reply =>
        [mkMessage user ChatService.OPENING; mkMessage assistant reply]
      | Thrown _ => []
      end.
Proof.
  destruct w as [ab ch ev td em pc].
  destruct completion as [[|[]]|]; run_handler;
    rewrite ?history_after_user_turn; try rewrite lookup_alter_eq;
    rewrite ?history_after_user_turn, ?ensured_lookup;
    cbv beta iota delta [default fmap option_fmap option_map];
    destruct (ch !! client); rewrite <- ?app_assoc, ?app_nil_r; reflexivity.
Qed.

Lemma start_history_other other :
  other <> client ->
  ChatService.getHistory
    (exec (ChatService.startInterview completion client) w) other
  = ChatService.getHistory w other.
Proof.
  intros Hne. destruct w as [ab ch ev td em pc].
  destruct completion as [[|[]]|]; run_handler;
    by rewrite ?lookup_alter_ne, ?ensured_lookup_other.
Qed.
End ChatEffects.

(** X5: [startInterview] changes the history only when it succeeds.  When
    its provider call fails (or answers without a content block) the error
    reaches the caller and [getHistory] returns, for every session, what it
    returned before: no opening turn is left behind. *)
Theorem startInterview_failure_leaves_history completion client w e :
  reply_of completion = Thrown e ->
  fst (ChatService.startInterview completion client w) = Thrown e /\
  forall session,
    ChatService.getHistory
      (exec (ChatService.startInterview completion client) w) session
    = ChatService.getHistory w session.
Proof.
  intros Hfail. split; [by rewrite start_outcome|].
  intros session. destruct (decide (session = client)) as [->|Hne].
  - by rewrite start_history, Hfail, app_nil_r.
  - by apply start_history_other.
Qed.

Lemma startInterview_failure_leaves_history_witness :
  reply_of (Thrown rate_limited) = Thrown rate_limited /\
  fst (ChatService.startInterview (Thrown rate_limited) session_a interviewed)
  = Thrown rate_limited.
Proof.
  assert (reply_of (Thrown rate_limited) = Thrown rate_limited) as H
    by reflexivity.
  split; [exact H|].
  exact (proj1 (startInterview_failure_leaves_history _ session_a interviewed
                  _ H)).
Defined.

(** X6: [startInterview] never shows the provider the conversation so
    far: whatever the history of the session holds, the request carries the
    opening instruction alone.  When the provider answers, the opening
    instruction and the greeting are appended to that history all the
    same. *)
Theorem startInterview_request_has_no_history completion client w reply :
  reply_of completion = Returned reply ->
  let w' := exec (ChatService.startInterview completion client) w in
  providerCalls w'
  = providerCalls w ++
      [messages_create ChatService.MODEL 500
         (Some ChatService.getSystemPrompt)
         [mkMessage user ChatService.OPENING]] /\
  fst (ChatService.startInterview completion client w) = Returned reply /\
  ChatService.getHistory w' client
  = ChatService.getHistory w client ++
      [mkMessage user ChatService.OPENING; mkMessage assistant reply].
Proof.
  intros Hok. cbv zeta. split_and!.
  - apply start_log.
  - by rewrite start_outcome.
  - by rewrite start_history, Hok.
Qed.

Lemma startInterview_request_has_no_history_witness :
  reply_of (Returned [TextBlock (utf16 "Welcome.")])
  = Returned (utf16 "Welcome.") /\
  ChatService.getHistory
    (exec (ChatService.startInterview
             (Returned [TextBlock (utf16 "Welcome.")]) session_a) interviewed)
    session_a
  = ChatService.getHistory interviewed session_a ++
      [mkMessage user ChatService.OPENING;
       mkMessage assistant (utf16 "Welcome.")].
Proof.
  assert (reply_of (Returned [TextBlock (utf16 "Welcome.")])
          = Returned (utf16 "Welcome.")) as H by reflexivity.
  split; [exact H|].
  exact (proj2 (proj2 (startInterview_request_has_no_history _ session_a
                         interviewed _ H))).
Defined.

(** X7: [clearHistory] forgets the conversation of its session and of no
    other: [getHistory] then returns the empty sequence for it, and the
    next [chat] of that session sends the provider the new user message
    alone. *)
Theorem clearHistory_starts_over completion client message_text w :
  let w1 := exec (ChatService.clearHistory client) w in
  (forall session,
     ChatService.getHistory w1 session
     = if decide (session = client) then []
       else ChatService.getHistory w session) /\
  providerCalls (exec (ChatService.chat completion client message_text) w1)
  = providerCalls w ++
      [messages_create ChatService.MODEL 500
         (Some ChatService.getSystemPrompt)
         [mkMessage user message_text]].
Proof.
  cbv zeta.
  assert (ChatService.getHistory (exec (ChatService.clearHistory client) w)
            client = []) as Hc.
  { destruct w as [ab ch ev td em pc]. run_handler. by rewrite lookup_delete_eq. }
  split.
  - intros session. destruct (decide (session = client)) as [->|Hne];
      [exact Hc|].
    destruct w as [ab ch ev td em pc]. run_handler.
    by rewrite lookup_delete_ne.
  - rewrite chat_log, Hc. by destruct w as [ab ch ev td em pc].
Qed.

(** X8: the user turn that a failed [chat] leaves in the history is sent
    again with the next message: the request of the following [chat]
    carries the unanswered turn right before the new one, two user turns
    in a row. *)
Theorem unanswered_turn_is_resent e completion client first second w :
  let w1 := exec (ChatService.chat (Thrown e) client first) w in
  providerCalls (exec (ChatService.chat completion client second) w1)
  = providerCalls w1 ++
      [messages_create ChatService.MODEL 500
         (Some ChatService.getSystemPrompt)
         (ChatService.getHistory w client ++
            [mkMessage user first; mkMessage user second])].
Proof.
  cbv zeta. rewrite chat_log, chat_history. cbn [reply_of].
  by rewrite <- app_assoc.
Qed.

(* ================================================================== *)
(** * Further properties: the gateway as a whole *)
(* ================================================================== *)




Lemma end_interview_emitted env client w :
  exists events,
    emitted (exec (AudioGateway.handleEndInterview env client) w)
    = emitted w ++ List.map (pair client) events.
Proof.
  unfold exec.
  destruct (ChatService.getHistory w client) as [|m h] eqn:Hh.
  - rewrite (end_interview_no_history _ _ _ Hh). destruct w as [ab ch ev td em pc]. by eexists [_].
  - rewrite (end_interview_run env client (m :: h) w Hh); [|done].
    destruct (reply_of _); destruct w as [ab ch ev td em pc]; by eexists [_].
Qed.

(** X10: a handler answers nobody but the client whose event it handles:
    the events a run emits, if any, all go to that client's socket, after
    the events emitted before the run. *)
Theorem events_go_to_the_sender env client ev w :
  exists events,
    emitted (exec (handle env client ev) w)
    = emitted w ++ List.map (pair client) events.
Proof.
  destruct ev; cbn [handle].
  - exists []. destruct w as [ab ch ev td em pc]. run_handler. by rewrite app_nil_r.
  - exists []. destruct w as [ab ch ev td em pc]. run_handler. by rewrite app_nil_r.
  - exists []. destruct w as [ab ch e td em pc]. run_handler.
    destruct (ab !! client); cbn; by rewrite app_nil_r.
  - destruct (audioBuffers w !! client) as [[|chunk chunks]|] eqn:Hb.
    + exists []. unfold exec. rewrite audio_complete_idle; [|by left].
      cbn. by rewrite app_nil_r.
    + eexists. by eapply audio_complete_emitted.
    + exists []. unfold exec. rewrite audio_complete_idle; [|by right].
      cbn. by rewrite app_nil_r.
  - destruct payload as [text|].
    + eexists. apply text_message_emitted.
    + exists []. destruct w as [ab ch e td em pc]. run_handler.
      by rewrite app_nil_r.
  - eexists. apply start_interview_emitted.
  - apply end_interview_emitted.
  - destruct w as [ab ch e td em pc]. run_handler.
    destruct (e !! client); by eexists [_].
Qed.

Section OtherSessions.
Variables (env : Env) (client other : list N) (w : World).
Hypothesis different : client <> other.

Lemma audio_complete_history_other chunk chunks :
  audioBuffers w !! client = Some (chunk :: chunks) ->
  ChatService.getHistory
    (exec (AudioGateway.handleAudioComplete env client) w) other
  = ChatService.getHistory w other.
Proof.
  destruct w as [ab ch ev td em pc], env as [fs t1 t2 t3 mk wr ul tr co sp].
  cbn [audioBuffers]. intros accumulated.
  run_handler. rewrite accumulated. cbv beta iota.
  audio_run_cases td mk wr tr co sp ul;
    rewrite ?lookup_alter_ne, ?ensured_lookup_other by done; reflexivity.
Qed.

Lemma reply_run_other text :
  let w1 :=
    exec (AudioGateway.handleTextMessage env client (Some text)) w in
  let w2 := exec (AudioGateway.handleStartInterview env client) w in
  (audioBuffers w1 = audioBuffers w /\ evaluations w1 = evaluations w /\
   ChatService.getHistory w1 other = ChatService.getHistory w other) /\
  (audioBuffers w2 = audioBuffers w /\ evaluations w2 = evaluations w /\
   ChatService.getHistory w2 other = ChatService.getHistory w other).
Proof.
  destruct w as [ab ch ev td em pc], env as [fs t1 t2 t3 mk wr ul tr co sp].
  destruct co as [[|[]]|], sp; run_handler;
    rewrite ?lookup_alter_ne, ?ensured_lookup_other by done; done.
Qed.

Lemma end_interview_other :
  let w1 := exec (AudioGateway.handleEndInterview env client) w in
  audioBuffers w1 = audioBuffers w /\
  conversationHistory w1 = conversationHistory w /\
  evaluations w1 !! other = evaluations w !! other.
Proof.
  cbv zeta. unfold exec.
  destruct (ChatService.getHistory w client) as [|m h] eqn:Hh.
  - rewrite (end_interview_no_history _ _ _ Hh). by destruct w as [ab ch ev td em pc].
  - rewrite (end_interview_run env client (m :: h) w Hh); [|done].
    destruct (reply_of _); destruct w as [ab ch ev td em pc]; run_handler;
      split_and!; try done.
    by rewrite lookup_insert_ne.
Qed.
End OtherSessions.

(** X11: sessions do not touch each other: handling an event of one
    client leaves the accumulator, the history and the evaluation record of
    every other client as they were. *)
Theorem sessions_are_isolated env client ev w other :
  other <> client ->
  let w' := exec (handle env client ev) w in
  audioBuffers w' !! other = audioBuffers w !! other /\
  ChatService.getHistory w' other = ChatService.getHistory w other /\
  EvaluationService.getEvaluation w' other
  = EvaluationService.getEvaluation w other.
Proof.
  intros Hne. assert (client <> other) as Hne' by congruence. cbv zeta.
  unfold EvaluationService.getEvaluation.
  destruct ev; cbn [handle].
  - destruct w as [ab ch ev td em pc]. run_handler. by rewrite lookup_insert_ne.
  - destruct w as [ab ch ev td em pc]. run_handler. by rewrite lookup_delete_ne.
  - destruct w as [ab ch e td em pc]. run_handler.
    destruct (ab !! client); cbn; by rewrite ?lookup_alter_ne.
  - destruct (audioBuffers w !! client) as [[|chunk chunks]|] eqn:Hb.
    + unfold exec. by rewrite audio_complete_idle; [|by left].
    + rewrite (audio_complete_accumulator _ _ _ _ _ Hb),
        (audio_complete_evaluations _ _ _ _ _ Hb),
        (audio_complete_history_other _ _ _ _ Hne' _ _ Hb).
      split_and!; try done.
      destruct (audio_run_ok env w); [|done]. by rewrite lookup_insert_ne.
    + unfold exec. by rewrite audio_complete_idle; [|by right].
  - destruct payload as [text|].
    + destruct (reply_run_other env client other w Hne' text)
        as [(-> & -> & ->) _]. done.
    + by destruct w as [ab ch e td em pc].
  - destruct (reply_run_other env client other w Hne' [])
      as [_ (-> & -> & ->)]. done.
  - destruct (end_interview_other env client other w Hne')
      as (-> & Hh & ->).
    split_and!; try done. unfold ChatService.getHistory. by rewrite Hh.
  - destruct w as [ab ch e td em pc]. run_handler.
    by destruct (e !! client).
Qed.

Lemma sessions_are_isolated_witness :
  session_b <> session_a /\
  ChatService.getHistory
    (exec (handle env_up session_a (text_message (Some (utf16 "Hello."))))
       interviewed)
    session_b
  = ChatService.getHistory interviewed session_b.
Proof.
  assert (session_b <> session_a) as H by (vm_compute; discriminate).
  split; [exact H|].
  exact (proj1 (proj2 (sessions_are_isolated env_up session_a
                         (text_message (Some (utf16 "Hello."))) interviewed
                         session_b H))).
Defined.

(* ================================================================== *)
(** * Further properties: evaluation records *)
(* ================================================================== *)

Lemma lookup_last_snoc key v props :
  lookup_last key (props ++ [(key, v)]) = Some v.
Proof.
  induction props as [|[k' v'] props IH]; cbn [app lookup_last].
  - by destruct (decide (key = key)).
  - by rewrite IH.
Qed.

Lemma stamped_fields v now :
  truthy (get_property v EvaluationService.SCORES) = true ->
  get_property (EvaluationService.stamp v now) (utf16 "evaluatedAt")
    = Some (JString now) /\
  get_property (EvaluationService.stamp v now) EvaluationService.SCORES
    = get_property v EvaluationService.SCORES /\
  get_property (EvaluationService.stamp v now) EvaluationService.COMMENTS
    = get_property v EvaluationService.COMMENTS.
Proof.
  intros Ht. destruct v; try done.
  unfold EvaluationService.stamp. cbn [own_properties get_property].
  split_and!.
  - apply lookup_last_snoc.
  - apply lookup_last_snoc_other. by vm_compute.
  - apply lookup_last_snoc_other. by vm_compute.
Qed.

Lemma parsed_or_fallback_comments text :
  truthy (get_property (parsed_or_fallback text) EvaluationService.COMMENTS)
  = true.
Proof.
  unfold parsed_or_fallback.
  destruct (EvaluationService.parseEvaluation_try text) as [v|e] eqn:H.
  - by destruct (parseEvaluation_try_checked _ _ H).
  - apply fallback_checked.
Qed.

(** X12: whatever the model replied, a record that [evaluateCandidate]
    returns is the one it has stored under the session id, and it has a
    truthy [scores], a truthy [comments], and an [evaluatedAt] that is the
    clock reading of the service, also when the reply had an
    [evaluatedAt] of its own. *)
Theorem returned_record_is_stored_and_stamped env client history w record w' :
  EvaluationService.evaluateCandidate env client history w
    = (Returned record, w') ->
  EvaluationService.getEvaluation w' client = Some record /\
  get_property record (utf16 "evaluatedAt") = Some (JString (evaluated_at env))
  /\ truthy (get_property record EvaluationService.SCORES) = true
  /\ truthy (get_property record EvaluationService.COMMENTS) = true.
Proof.
  rewrite evaluateCandidate_run.
  destruct (reply_of (completion_result env)) as [text|e]; [|done].
  intros [= <- <-].
  destruct (stamped_fields (parsed_or_fallback text) (evaluated_at env)
              (parsed_or_fallback_scores text)) as (Ha & Hs & Hc).
  split_and!.
  - destruct w as [ab ch ev td em pc]. unfold EvaluationService.getEvaluation.
    cbn [set_evaluations evaluations]. apply lookup_insert_eq.
  - exact Ha.
  - rewrite Hs. apply parsed_or_fallback_scores.
  - rewrite Hc. apply parsed_or_fallback_comments.
Qed.

Lemma returned_record_is_stored_and_stamped_witness :
  let run :=
    EvaluationService.evaluateCandidate env_graded session_a
      (ChatService.getHistory interviewed session_a) interviewed in
  exists record,
    run = (Returned record, snd run) /\
    get_property record (utf16 "evaluatedAt")
    = Some (JString (evaluated_at env_graded)).
Proof.
  cbv zeta.
  assert (exists record,
            EvaluationService.evaluateCandidate env_graded session_a
              (ChatService.getHistory interviewed session_a) interviewed
            = (Returned record,
               snd (EvaluationService.evaluateCandidate env_graded session_a
                      (ChatService.getHistory interviewed session_a)
                      interviewed))) as [record H].
  { rewrite evaluateCandidate_run. by eexists. }
  exists record. split; [exact H|].
  exact (proj1 (proj2 (returned_record_is_stored_and_stamped _ _ _ _ _ _ H))).
Defined.

Section AfterEvaluation.
Variables (env : Env) (client : list N) (w : World) (text : list N).
Hypothesis has_history : ChatService.getHistory w client <> [].
Hypothesis answered : reply_of (completion_result env) = Returned text.

Lemma end_interview_answered :
  exec (AudioGateway.handleEndInterview env client) w
  = set_emitted
      (fun log => log ++
         [(client,
           evaluation_complete
             (EvaluationService.stamp (parsed_or_fallback text)
                (evaluated_at env)))])
      (set_evaluations
         <[client := EvaluationService.stamp (parsed_or_fallback text)
                       (evaluated_at env)]>
         (set_providerCalls
            (fun log => log ++
               [evaluation_request (ChatService.getHistory w client)]) w)).
Proof.
  unfold exec.
  by rewrite (end_interview_run env client _ w eq_refl has_history), answered.
Qed.
End AfterEvaluation.

(** X13: once end-interview has produced a record, get-evaluation hands
    out that very record: the [evaluation-result] that answers it carries
    the record the [evaluation-complete] carried, and nothing is computed
    or requested for it. *)
Theorem get_evaluation_returns_the_record env client w text :
  ChatService.getHistory w client <> [] ->
  reply_of (completion_result env) = Returned text ->
  let w1 := exec (AudioGateway.handleEndInterview env client) w in
  let w2 := exec (AudioGateway.handleGetEvaluation client) w1 in
  exists record,
    emitted w1 = emitted w ++ [(client, evaluation_complete record)] /\
    emitted w2 = emitted w1 ++ [(client, evaluation_result record)] /\
    providerCalls w2 = providerCalls w1 /\
    evaluations w2 = evaluations w1.
Proof.
  intros Hh Hok. cbv zeta.
  rewrite (end_interview_answered _ _ _ _ Hh Hok).
  eexists. destruct w as [ab ch ev td em pc].
  run_handler. rewrite lookup_insert_eq. done.
Qed.

Lemma get_evaluation_returns_the_record_witness :
  ChatService.getHistory interviewed session_a <> [] /\
  (exists text, reply_of (completion_result env_graded) = Returned text) /\
  exists record,
    emitted (exec (AudioGateway.handleEndInterview env_graded session_a)
               interviewed)
    = emitted interviewed ++ [(session_a, evaluation_complete record)].
Proof.
  assert (ChatService.getHistory interviewed session_a <> []) as H1
    by (vm_compute; discriminate).
  split; [exact H1|]. split; [by eexists|].
  destruct (get_evaluation_returns_the_record env_graded session_a interviewed
              _ H1 eq_refl) as (record & H & _).
  by exists record.
Defined.

(** X14: end-interview leaves the history in place, so it can be asked
    again: the second request grades the same transcript; when it is
    answered its record replaces the first, and when it fails the first
    record stays. *)
Theorem evaluation_can_be_repeated env env' client w text :
  ChatService.getHistory w client <> [] ->
  reply_of (completion_result env) = Returned text ->
  let w1 := exec (AudioGateway.handleEndInterview env client) w in
  let w2 := exec (AudioGateway.handleEndInterview env' client) w1 in
  ChatService.getHistory w1 client = ChatService.getHistory w client /\
  providerCalls w2
  = providerCalls w1 ++ [evaluation_request (ChatService.getHistory w client)]
  /\
  EvaluationService.getEvaluation w2 client
  = Some
      match reply_of (completion_result env') with
      | Returned text' =>
        EvaluationService.stamp (parsed_or_fallback text') (evaluated_at env')
      | Thrown _ =>
        EvaluationService.stamp (parsed_or_fallback text) (evaluated_at env)
      end.
Proof.
  intros Hh Hok. cbv zeta.
  remember (exec (AudioGateway.handleEndInterview env client) w) as w1 eqn:E.
  rewrite (end_interview_answered _ _ _ _ Hh Hok) in E.
  assert (ChatService.getHistory w1 client = ChatService.getHistory w client)
    as Hsame by (subst w1; by destruct w as [ab ch ev td em pc]).
  split; [exact Hsame|].
  assert (ChatService.getHistory w1 client <> []) as Hh1 by (by rewrite Hsame).
  unfold exec.
  rewrite (end_interview_run env' client _ _ eq_refl Hh1), Hsame.
  unfold EvaluationService.getEvaluation.
  destruct (reply_of (completion_result env')); subst w1;
    destruct w as [ab ch ev td em pc]; run_handler;
    (split; [reflexivity|by rewrite lookup_insert_eq]).
Qed.

Lemma evaluation_can_be_repeated_witness :
  ChatService.getHistory interviewed session_a <> [] /\
  (exists text, reply_of (completion_result env_graded) = Returned text) /\
  ChatService.getHistory
    (exec (AudioGateway.handleEndInterview env_graded session_a) interviewed)
    session_a
  = ChatService.getHistory interviewed session_a.
Proof.
  assert (ChatService.getHistory interviewed session_a <> []) as H1
    by (vm_compute; discriminate).
  split; [exact H1|]. split; [by eexists|].
  exact (proj1 (evaluation_can_be_repeated env_graded env_no_chat session_a
                  interviewed _ H1 eq_refl)).
Defined.

(** X15: [clearEvaluation] removes the record of its session and of no
    other; a get-evaluation that follows is answered with
    [evaluation-error]. *)
Theorem cleared_evaluation_is_gone client w :
  let w1 := exec (EvaluationService.clearEvaluation client) w in
  EvaluationService.getEvaluation w1 client = None /\
  (forall session,
     EvaluationService.getEvaluation w1 session
     = if decide (session = client) then None
       else EvaluationService.getEvaluation w session) /\
  emitted (exec (AudioGateway.handleGetEvaluation client) w1)
  = emitted w ++
      [(client, evaluation_error (utf16 "評価結果が見つかりません"))].
Proof.
  cbv zeta. destruct w as [ab ch ev td em pc]. run_handler.
  rewrite lookup_delete_eq. split_and!; try done.
  intros session. destruct (decide (session = client)) as [->|Hne].
  - apply lookup_delete_eq.
  - by apply lookup_delete_ne.
Qed.

Lemma no_block_gives_fallback text :
  first_brace_through_last_brace text = None ->
  parsed_or_fallback text = EvaluationService.fallback.
Proof.
  intros H. unfold parsed_or_fallback, EvaluationService.parseEvaluation_try.
  by rewrite string_match_json_block, H.
Qed.

(** X16: a reply of the model without any brace block is not reported as
    an error: end-interview answers with [evaluation-complete] carrying
    the stamped fallback record, and that record is stored, so that a later
    get-evaluation hands it out like any other. *)
Theorem unusable_reply_is_stored_as_fallback env client w text :
  ChatService.getHistory w client <> [] ->
  reply_of (completion_result env) = Returned text ->
  first_brace_through_last_brace text = None ->
  let w1 := exec (AudioGateway.handleEndInterview env client) w in
  let record :=
    EvaluationService.stamp EvaluationService.fallback (evaluated_at env) in
  emitted w1 = emitted w ++ [(client, evaluation_complete record)] /\
  EvaluationService.getEvaluation w1 client = Some record.
Proof.
  intros Hh Hok Hnone. cbv zeta.
  rewrite (end_interview_answered _ _ _ _ Hh Hok).
  rewrite (no_block_gives_fallback _ Hnone).
  unfold EvaluationService.getEvaluation.
  destruct w as [ab ch ev td em pc]. run_handler.
  by rewrite lookup_insert_eq.
Qed.

Lemma unusable_reply_is_stored_as_fallback_witness :
  ChatService.getHistory interviewed session_a <> [] /\
  reply_of (completion_result env_up)
  = Returned (utf16 "What was the hardest part?") /\
  first_brace_through_last_brace (utf16 "What was the hardest part?") = None /\
  EvaluationService.getEvaluation
    (exec (AudioGateway.handleEndInterview env_up session_a) interviewed)
    session_a
  = Some (EvaluationService.stamp EvaluationService.fallback
            (evaluated_at env_up)).
Proof.
  assert (ChatService.getHistory interviewed session_a <> []) as H1
    by (vm_compute; discriminate).
  assert (reply_of (completion_result env_up)
          = Returned (utf16 "What was the hardest part?")) as H2
    by reflexivity.
  assert (first_brace_through_last_brace (utf16 "What was the hardest part?")
          = None) as H3 by (vm_compute; reflexivity).
  split_and!; [exact H1|exact H2|exact H3|].
  exact (proj2 (unusable_reply_is_stored_as_fallback env_up session_a
                  interviewed _ H1 H2 H3)).
Defined.

(* ================================================================== *)
(** * Further properties: what the client is shown and what is kept *)
(* ================================================================== *)

(** X17: in an audio run the history grows by exactly the turns the
    client is shown: the user turn when [transcription] was emitted, the
    assistant turn when [ai-response] was emitted, also when a later stage
    of the run fails. *)
Theorem audio_history_matches_events env client w chunk chunks :
  audioBuffers w !! client = Some (chunk :: chunks) ->
  ChatService.getHistory
    (exec (AudioGateway.handleAudioComplete env client) w) client
  = ChatService.getHistory w client ++ turns_shown (audio_run_events env w).
Proof.
  destruct w as [ab ch ev td em pc], env as [fs t1 t2 t3 mk wr ul tr co sp].
  cbn [audioBuffers]. intros accumulated.
  run_gateway. rewrite accumulated. cbv beta iota.
  audio_run_cases td mk wr tr co sp ul;
    rewrite ?history_after_user_turn; try rewrite lookup_alter_eq;
    rewrite ?history_after_user_turn;
    cbv beta iota delta [default fmap option_fmap option_map];
    destruct (ch !! client); cbn [omap turn_of_event];
    rewrite <- ?app_assoc, ?app_nil_r; reflexivity.
Qed.

Lemma audio_history_matches_events_witness :
  audioBuffers recording !! session_a = Some [[26; 69; 223; 163]] /\
  ChatService.getHistory
    (exec (AudioGateway.handleAudioComplete env_no_chat session_a) recording)
    session_a
  = ChatService.getHistory recording session_a ++
      turns_shown (audio_run_events env_no_chat recording).
Proof.
  assert (audioBuffers recording !! session_a = Some [[26; 69; 223; 163]])
    as H by (vm_compute; reflexivity).
  split; [exact H|].
  exact (audio_history_matches_events env_no_chat session_a recording _ _ H).
Defined.

(** X18: in a text run the history gets the user message, and the reply
    whenever [ai-response] was emitted: a synthesis that fails after the
    reply leaves both turns in the history. *)
Theorem text_history_matches_events env client w text :
  ChatService.getHistory
    (exec (AudioGateway.handleTextMessage env client (Some text)) w) client
  = ChatService.getHistory w client ++
      mkMessage user text ::
      turns_shown
        (reply_run_events (utf16 "Failed to generate response") env).
Proof.
  destruct w as [ab ch ev td em pc], env as [fs t1 t2 t3 mk wr ul tr co sp].
  destruct co as [[|[]]|], sp; run_gateway;
    rewrite ?history_after_user_turn; try rewrite lookup_alter_eq;
    rewrite ?history_after_user_turn;
    cbv beta iota delta [default fmap option_fmap option_map];
    destruct (ch !! client); cbn [omap turn_of_event];
    rewrite <- ?app_assoc, ?app_nil_r; reflexivity.
Qed.

(** X19: start-interview sends the greeting as text before it tries to
    speak it: when the chat provider answers, [ai-response] with the
    greeting is the first event of the run whatever becomes of the
    synthesis, whose failure only adds a [processing-error] after it. *)
Theorem greeting_text_precedes_audio env client w greeting :
  reply_of (completion_result env) = Returned greeting ->
  emitted (exec (AudioGateway.handleStartInterview env client) w)
  = emitted w ++
      [ (client, ai_response greeting (response_time env));
        (client,
         match speech_result env with
         | Returned audio => ai_audio (base64 audio)
         | Thrown e =>
           processing_error (utf16 "Failed to start interview") (message e)
         end) ].
Proof.
  intros Hok. rewrite start_interview_emitted.
  unfold reply_run_events. rewrite Hok.
  by destruct (speech_result env).
Qed.

Lemma greeting_text_precedes_audio_witness :
  reply_of (completion_result env_up)
  = Returned (utf16 "What was the hardest part?") /\
  emitted (exec (AudioGateway.handleStartInterview env_up session_a) connected)
  = emitted connected ++
      [ (session_a,
         ai_response (utf16 "What was the hardest part?")
           (response_time env_up));
        (session_a, ai_audio (base64 [73; 68; 51])) ].
Proof.
  assert (reply_of (completion_result env_up)
          = Returned (utf16 "What was the hardest part?")) as H
    by reflexivity.
  split; [exact H|].
  exact (greeting_text_precedes_audio env_up session_a connected _ H).
Defined.

(* ================================================================== *)
(** * Further properties: the grading transcript and the reply *)
(* ================================================================== *)

Lemma join_last_two sep xs a b :
  join sep (xs ++ [a; b]) = join sep (xs ++ [a ++ sep ++ b]).
Proof.
  induction xs as [|x xs IH]; [reflexivity|].
  destruct xs as [|y ys]; [reflexivity|].
  change (x ++ sep ++ join sep ((y :: ys) ++ [a; b])
          = x ++ sep ++ join sep ((y :: ys) ++ [a ++ sep ++ b])).
  by rewrite IH.
Qed.

Lemma render_app speaker text more :
  EvaluationService.render (mkMessage speaker (text ++ more))
  = EvaluationService.render (mkMessage speaker text) ++ more.
Proof.
  unfold EvaluationService.render. cbn [role content].
  by rewrite <- !app_assoc.
Qed.

(** X20: the transcript sent for grading does not keep turns apart: a
    turn whose text contains a blank line followed by a rendered line
    yields the same request as two separate turns, so the text of one
    speaker can pass for a turn of the other. *)
Theorem transcript_turns_can_be_forged history speaker text forged :
  evaluation_request
    (history ++
       [mkMessage speaker
          (text ++ [10; 10] ++ EvaluationService.render forged)])
  = evaluation_request (history ++ [mkMessage speaker text; forged]).
Proof.
  unfold evaluation_request, EvaluationService.conversationText.
  rewrite !map_app. cbn [List.map].
  by rewrite join_last_two, render_app.
Qed.

(** X21: prose around the data does no harm as long as it has no brace of
    its own: when no [{] comes before the block and no [}] after it, and
    the block parses with truthy [scores] and [comments],
    [parseEvaluation] returns the parsed data. *)
Theorem parseEvaluation_ignores_prose before inside after parsed :
  LBRACE ∉ before -> RBRACE ∉ after ->
  JSON_parse ([LBRACE] ++ inside ++ [RBRACE]) = Returned parsed ->
  truthy (get_property parsed EvaluationService.SCORES) = true ->
  truthy (get_property parsed EvaluationService.COMMENTS) = true ->
  EvaluationService.parseEvaluation
    (before ++ [LBRACE] ++ inside ++ [RBRACE] ++ after)
  = Returned parsed.
Proof.
  intros Hb Ha Hp Hs Hc.
  unfold EvaluationService.parseEvaluation,
    EvaluationService.parseEvaluation_try.
  rewrite string_match_json_block.
  assert (first_brace_through_last_brace
            (before ++ [LBRACE] ++ inside ++ [RBRACE] ++ after)
          = Some ([LBRACE] ++ inside ++ [RBRACE])) as ->.
  { apply first_brace_through_last_brace_split. by exists before, inside, after. }
  by rewrite Hp, Hs, Hc.
Qed.

Lemma parseEvaluation_ignores_prose_witness :
  let inside := quoted "'scores':{'overall':7},'comments':{'summary':'ok'}" in
  let parsed :=
    JObject
      [ (EvaluationService.SCORES,
           JObject [(utf16 "overall", JNumber (number_of_N 7))]);
        (EvaluationService.COMMENTS,
           JObject [(utf16 "summary", JString (utf16 "ok"))]) ] in
  (LBRACE ∉ utf16 "Here is my evaluation: ") /\
  (RBRACE ∉ utf16 " Hope this helps!") /\
  JSON_parse ([LBRACE] ++ inside ++ [RBRACE]) = Returned parsed /\
  EvaluationService.parseEvaluation
    (utf16 "Here is my evaluation: " ++ [LBRACE] ++ inside ++ [RBRACE]
       ++ utf16 " Hope this helps!")
  = Returned parsed.
Proof.
  cbv zeta.
  assert (LBRACE ∉ utf16 "Here is my evaluation: ") as H1.
  { apply through_last_none. vm_compute. reflexivity. }
  assert (RBRACE ∉ utf16 " Hope this helps!") as H2.
  { apply through_last_none. vm_compute. reflexivity. }
  split_and!; [exact H1|exact H2|vm_compute; reflexivity|].
  apply (parseEvaluation_ignores_prose _ _ _ _ H1 H2); vm_compute; reflexivity.
Defined.

(* ================================================================== *)
(** * Further properties: the audio on its way to the player *)
(* ================================================================== *)

Lemma quotient_remainder a k :
  k <> 0 -> exists q r, a / k = q /\ a mod k = r /\ a = k * q + r /\ r < k.
Proof.
  intros Hk. exists (a / k), (a mod k). split_and!; try done.
  - by apply N.div_mod.
  - by apply N.mod_lt.
Qed.

Lemma three_bytes a b c :
  a < 256 -> b < 256 -> c < 256 ->
  let d1 := a / 4 in
  let d2 := (a mod 4) * 16 + b / 16 in
  let d3 := (b mod 16) * 4 + c / 64 in
  let d4 := c mod 64 in
  let n := ((d1 * 64 + d2) * 64 + d3) * 64 + d4 in
  (d1 < 64 /\ d2 < 64 /\ d3 < 64 /\ d4 < 64) /\
  n / 65536 = a /\ (n / 256) mod 256 = b /\ n mod 256 = c.
Proof.
  intros Ha Hb Hc.
  destruct (quotient_remainder a 4) as (qa & ra & -> & -> & Ea & Hra); [done|].
  destruct (quotient_remainder b 16) as (qb & rb & -> & -> & Eb & Hrb); [done|].
  destruct (quotient_remainder c 64) as (qc & rc & -> & -> & Ec & Hrc); [done|].
  cbv zeta. split; [lia|].
  assert ((((qa * 64 + (ra * 16 + qb)) * 64 + (rb * 4 + qc)) * 64 + rc)
          = a * 65536 + b * 256 + c) as -> by lia.
  split_and!.
  - symmetry. apply (N.div_unique _ _ _ (b * 256 + c)); lia.
  - assert ((a * 65536 + b * 256 + c) / 256 = a * 256 + b) as ->.
    { symmetry. apply (N.div_unique _ _ _ c); lia. }
    symmetry. apply (N.mod_unique _ _ a); lia.
  - symmetry. apply (N.mod_unique _ _ (a * 256 + b)); lia.
Qed.

Lemma two_bytes a b :
  a < 256 -> b < 256 ->
  let d1 := a / 4 in
  let d2 := (a mod 4) * 16 + b / 16 in
  let d3 := (b mod 16) * 4 in
  let n := (d1 * 64 + d2) * 64 + d3 in
  (d1 < 64 /\ d2 < 64 /\ d3 < 64) /\ n / 1024 = a /\ (n / 4) mod 256 = b.
Proof.
  intros Ha Hb.
  destruct (quotient_remainder a 4) as (qa & ra & -> & -> & Ea & Hra); [done|].
  destruct (quotient_remainder b 16) as (qb & rb & -> & -> & Eb & Hrb); [done|].
  cbv zeta. split; [lia|].
  assert (((qa * 64 + (ra * 16 + qb)) * 64 + rb * 4) = a * 1024 + b * 4)
    as -> by lia.
  split.
  - symmetry. apply (N.div_unique _ _ _ (b * 4)); lia.
  - assert ((a * 1024 + b * 4) / 4 = a * 256 + b) as ->.
    { symmetry. apply (N.div_unique _ _ _ 0); lia. }
    symmetry. apply (N.mod_unique _ _ a); lia.
Qed.

Lemma one_byte a :
  a < 256 ->
  let d1 := a / 4 in
  let d2 := (a mod 4) * 16 in
  (d1 < 64 /\ d2 < 64) /\ (d1 * 64 + d2) / 16 = a.
Proof.
  intros Ha.
  destruct (quotient_remainder a 4) as (qa & ra & -> & -> & Ea & Hra); [done|].
  cbv zeta. split; [lia|].
  symmetry. apply (N.div_unique _ _ _ 0); lia.
Qed.

(** A base64 digit is a character of the alphabet, with the value it was
    made from. *)
Lemma base64_digit_spec d :
  d < 64 ->
  sextet (base64_digit d) = Some d /\
  is_ascii_whitespace (base64_digit d) = false /\
  (base64_digit d =? 61) = false.
Proof.
  intros Hd. unfold base64_digit, sextet, is_ascii_whitespace.
  destruct (N.ltb_spec d 26); [|destruct (N.ltb_spec d 52);
    [|destruct (N.ltb_spec d 62); [|destruct (N.eqb_spec d 62)]]].
  all: repeat match goal with
       | |- context [?x <=? ?y] => destruct (N.leb_spec x y); try lia
       | |- context [?x =? ?y] => destruct (N.eqb_spec x y); try lia
       end; cbn [andb orb]; split_and!; try done; f_equal; lia.
Qed.

Lemma list_ind3 {A} (P : list A -> Prop) :
  P [] -> (forall a, P [a]) -> (forall a b, P [a; b]) ->
  (forall a b c l, P l -> P (a :: b :: c :: l)) ->
  forall l, P l.
Proof.
  intros H0 H1 H2 H3. fix IH 1.
  intros [|a [|b [|c l]]]; [exact H0|apply H1|apply H2|apply H3, IH].
Qed.

Lemma mod4_step n : (S (S (S (S n))) mod 4 = n mod 4)%nat.
Proof.
  replace (S (S (S (S n)))) with (n + 1 * 4)%nat by lia.
  apply Nat.Div0.mod_add.
Qed.

(** The text [base64] produces: digits of the alphabet that decode to
    the bytes, then the padding that fills the last group. *)
Lemma base64_structure bytes :
  Forall (fun b => b < 256) bytes ->
  exists ds pad,
    base64 bytes = List.map base64_digit ds ++ pad /\
    Forall (fun d => d < 64) ds /\
    bytes_of_sextets ds = bytes /\
    ((pad = [] /\ (length ds mod 4 = 0)%nat) \/
     (pad = [61] /\ (length ds mod 4 = 3)%nat) \/
     (pad = [61; 61] /\ (length ds mod 4 = 2)%nat)).
Proof.
  induction bytes as [|a|a b|a b c rest IH] using list_ind3; intros Hb.
  - exists [], []. split_and!; try done. by left.
  - apply Forall_cons in Hb as [Ha _].
    destruct (one_byte a Ha) as ((H1 & H2) & Hv).
    exists [a / 4; (a mod 4) * 16], [61; 61].
    split_and!; [done|by repeat constructor| |by right; right].
    cbn [bytes_of_sextets]. by rewrite Hv.
  - apply Forall_cons in Hb as [Ha Hb]. apply Forall_cons in Hb as [Hb _].
    destruct (two_bytes a b Ha Hb) as ((H1 & H2 & H3) & Hv1 & Hv2).
    exists [a / 4; (a mod 4) * 16 + b / 16; (b mod 16) * 4], [61].
    split_and!; [done|by repeat constructor| |by right; left].
    cbn [bytes_of_sextets]. cbv zeta. by rewrite Hv1, Hv2.
  - apply Forall_cons in Hb as [Ha Hb]. apply Forall_cons in Hb as [Hb Hc].
    apply Forall_cons in Hc as [Hc Hrest].
    destruct (IH Hrest) as (ds & pad & E & Hds & Hbytes & Hpad).
    destruct (three_bytes a b c Ha Hb Hc)
      as ((H1 & H2 & H3 & H4) & Hv1 & Hv2 & Hv3).
    exists (a / 4 :: (a mod 4) * 16 + b / 16 :: (b mod 16) * 4 + c / 64
              :: c mod 64 :: ds), pad.
    split_and!.
    + cbn [base64 List.map app]. by rewrite E.
    + by repeat constructor.
    + cbn [bytes_of_sextets]. cbv zeta. by rewrite Hv1, Hv2, Hv3, Hbytes.
    + cbn [length]. by rewrite mod4_step.
Qed.

Lemma sextets_of_digits ds :
  Forall (fun d => d < 64) ds ->
  sextets_of (List.map base64_digit ds) = Some ds.
Proof.
  induction 1 as [|d ds Hd _ IH]; [done|].
  cbn [List.map sextets_of].
  by rewrite (proj1 (base64_digit_spec d Hd)), IH.
Qed.

Lemma filter_all {A} (P : A -> Prop) `{forall x, Decision (P x)} (l : list A) :
  Forall P l -> filter P l = l.
Proof.
  induction 1 as [|x l Hx _ IH]; [done|].
  by rewrite filter_cons_True, IH.
Qed.

Lemma digits_not_padding ds :
  Forall (fun d => d < 64) ds ->
  Forall (fun c => (c =? 61) = false /\ is_ascii_whitespace c = false)
         (List.map base64_digit ds).
Proof.
  induction 1 as [|d ds Hd _ IH]; cbn [List.map]; constructor; [|done].
  by destruct (base64_digit_spec d Hd) as (_ & ? & ?).
Qed.

Lemma strip_padding_digits xs pad :
  Forall (fun c => (c =? 61) = false /\ is_ascii_whitespace c = false) xs ->
  (pad = [] \/ (pad = [61] /\ xs <> []) \/ pad = [61; 61]) ->
  strip_padding (xs ++ pad) = xs.
Proof.
  intros Hxs Hpad. unfold strip_padding. rewrite rev_app_distr.
  assert (forall c r, rev xs = c :: r -> (c =? 61) = false) as Hhead.
  { intros c r E. apply (f_equal (@rev _)) in E. rewrite rev_involutive in E.
    cbn [rev] in E. rewrite E in Hxs.
    by apply Forall_app in Hxs as [_ [[? _] _]%Forall_cons]. }
  destruct Hpad as [->|[[-> Hne]| ->]]; cbn [rev app].
  - rewrite app_nil_r.
    destruct (rev xs) as [|c1 [|c2 r]] eqn:E; [done| |];
      by rewrite (Hhead _ _ eq_refl).
  - destruct (rev xs) as [|c2 r] eqn:E.
    + apply (f_equal (@rev _)) in E. rewrite rev_involutive in E. done.
    + rewrite (Hhead _ _ eq_refl). cbn [N.eqb Pos.eqb].
      change (rev (c2 :: r) = xs). by rewrite <- E, rev_involutive.
  - cbn [N.eqb Pos.eqb]. by rewrite rev_involutive.
Qed.

Lemma atob_base64 bytes :
  Forall (fun b => b < 256) bytes -> atob (base64 bytes) = Returned bytes.
Proof.
  intros Hb.
  destruct (base64_structure bytes Hb) as (ds & pad & -> & Hds & Hbytes & Hpad).
  pose proof (digits_not_padding ds Hds) as Hxs.
  unfold atob.
  rewrite filter_all.
  2: { apply Forall_app. split.
       - eapply Forall_impl; [exact Hxs|]. by intros c [_ ?].
       - destruct Hpad as [[-> _]|[[-> _]|[-> _]]]; by repeat constructor. }
  assert (length (List.map base64_digit ds ++ pad) mod 4 = 0)%nat as Hlen.
  { rewrite length_app, length_map.
    destruct Hpad as [[-> E]|[[-> E]|[-> E]]]; cbn [length].
    - by rewrite Nat.add_0_r.
    - rewrite <- (Nat.Div0.add_mod_idemp_l (length ds)), E. reflexivity.
    - rewrite <- (Nat.Div0.add_mod_idemp_l (length ds)), E. reflexivity. }
  rewrite Hlen. cbn [Nat.eqb]. cbv zeta.
  rewrite strip_padding_digits; [|done|].
  2: { destruct Hpad as [[-> _]|[[-> E]|[-> _]]]; [by left| |by right; right].
       right. left. split; [done|]. intros Hnil.
       apply map_eq_nil in Hnil. by subst ds. }
  rewrite length_map.
  assert (Nat.eqb (length ds mod 4) 1 = false) as ->.
  { by destruct Hpad as [[_ ->]|[[_ ->]|[_ ->]]]. }
  by rewrite (sextets_of_digits _ Hds), Hbytes.
Qed.

(** X22: the audio survives the trip to the player: the bytes the page
    rebuilds from the base64 text of an [ai-audio] event are the bytes the
    synthesis returned. *)
Theorem audio_round_trip audio :
  Forall (fun b => b < 256) audio ->
  received_audio (base64 audio) = Returned audio.
Proof.
  intros Hb. unfold received_audio. rewrite (atob_base64 _ Hb).
  f_equal. induction Hb as [|b rest Hb _ IH]; [done|].
  cbn [List.map]. rewrite IH. f_equal. by apply N.mod_small.
Qed.

Lemma audio_round_trip_witness :
  Forall (fun b => b < 256) [73; 68; 51; 255; 0] /\
  received_audio (base64 [73; 68; 51; 255; 0]) = Returned [73; 68; 51; 255; 0].
Proof.
  assert (Forall (fun b => b < 256) [73; 68; 51; 255; 0]) as H
    by (repeat constructor).
  split; [exact H|]. exact (audio_round_trip _ H).
Defined.

(* ================================================================== *)
(** * Further properties: the name of the temporary file *)
(* ================================================================== *)

Lemma uint_digits d :
  Forall (fun c => c <> 45)
    (List.map N_of_ascii
       (list_ascii_of_string (NilEmpty.string_of_uint d))).
Proof.
  induction d; cbn [NilEmpty.string_of_uint list_ascii_of_string List.map];
    constructor; try done; by vm_compute.
Qed.

Lemma decimal_no_dash n : 45 ∉ decimal n.
Proof.
  unfold decimal, NilZero.string_of_uint. intros Hin.
  assert (Forall (fun c => c <> 45)
            (List.map N_of_ascii
               (list_ascii_of_string
                  match N.to_uint n with
                  | Decimal.Nil => "0"%string
                  | _ => NilEmpty.string_of_uint (N.to_uint n)
                  end))) as Hall.
  { destruct (N.to_uint n) eqn:E; try (rewrite <- E; apply uint_digits).
    repeat constructor. by vm_compute. }
  rewrite Forall_forall in Hall. by apply (Hall 45 Hin).
Qed.

Lemma codes_of_ascii_inv l :
  List.map ascii_of_N (List.map N_of_ascii l) = l.
Proof.
  induction l as [|a l IH]; [done|].
  cbn [List.map]. by rewrite ascii_N_embedding, IH.
Qed.

Lemma decimal_inj n1 n2 : decimal n1 = decimal n2 -> n1 = n2.
Proof.
  unfold decimal. intros H.
  apply (f_equal (List.map ascii_of_N)) in H.
  rewrite !codes_of_ascii_inv in H.
  apply (f_equal string_of_list_ascii) in H.
  rewrite !string_of_list_ascii_of_string in H.
  apply DecimalN.Unsigned.to_uint_inj.
  assert (forall n, N.to_uint n <> Decimal.Nil) as Hnn.
  { intros [|p]; [done|]. apply DecimalPos.Unsigned.to_uint_nonnil. }
  apply (f_equal NilZero.uint_of_string) in H.
  rewrite !NilZero.usu in H by apply Hnn. congruence.
Qed.

Lemma split_at_last_mark {A} (x : A) c1 d1 c2 d2 :
  x ∉ d1 -> x ∉ d2 -> c1 ++ x :: d1 = c2 ++ x :: d2 -> c1 = c2 /\ d1 = d2.
Proof.
  intros H1 H2. revert c2.
  induction c1 as [|a c1 Hind]; intros [|b c2]; cbn [app]; intros E.
  - by injection E.
  - injection E as <- ->. exfalso. apply H1, list_elem_of_In, in_elt.
  - injection E as E1 E2. exfalso. apply H2. rewrite <- E2.
    apply list_elem_of_In, in_elt.
  - injection E as Hab E. destruct (Hind _ E) as [Hc Hd]. by subst.
Qed.

(** X23: the name of the temporary file tells runs apart: two runs get
    the same name only when they are runs of the same client started in the
    same millisecond; the files of different sessions never coincide. *)
Theorem temp_file_names_differ client1 stamp1 client2 stamp2 :
  client1 <> client2 \/ stamp1 <> stamp2 ->
  AudioGateway.tempFileName client1 stamp1
  <> AudioGateway.tempFileName client2 stamp2.
Proof.
  intros Hdiff E. unfold AudioGateway.tempFileName in E.
  apply app_inv_head in E.
  change (utf16 "-") with [45] in E.
  rewrite !(app_assoc client1), !(app_assoc client2) in E.
  rewrite !(app_assoc (_ ++ [45])) in E.
  apply app_inv_tail in E.
  rewrite <- !app_assoc in E. cbn [app] in E.
  apply split_at_last_mark in E as [E1 E2]; try apply decimal_no_dash.
  apply decimal_inj in E2. by destruct Hdiff.
Qed.

Lemma temp_file_names_differ_witness :
  (session_a <> session_b \/ 1730538000000 <> 1730538000000) /\
  AudioGateway.tempFileName session_a 1730538000000
  <> AudioGateway.tempFileName session_b 1730538000000.
Proof.
  assert (session_a <> session_b \/ 1730538000000 <> 1730538000000) as H.
  { left. vm_compute. discriminate. }
  split; [exact H|]. exact (temp_file_names_differ _ _ _ _ H).
Defined.
